(** * Cache-aside products API (src/api/index.js): a shallow embedding

    The Express handlers of [src/api/index.js] are embedded as functions
    over an explicit world: the process-wide [redisReady] flag, the Redis
    server behind the client, the two PostgreSQL pools, the pending
    connection events, and a trace of the I/O calls issued so far.  The
    JavaScript built-ins the handlers rely on ([parseInt],
    [Number.isFinite], [Number.isInteger], template-literal formatting of
    numbers, truthiness, [JSON.parse], [JSON.stringify]) are embedded in
    the first part of the file. *)

From Stdlib Require Import ZArith Ascii String List Bool Lia.
From stdpp Require Import base option gmap strings list sorting.

Local Open Scope string_scope.
Local Open Scope Z_scope.

(** ** JavaScript numbers

    Only the numbers the handlers can meet are distinguished: [NaN], the
    two infinities, integer-valued doubles, and the remaining finite
    doubles, which are never inspected beyond "not an integer" and are
    carried with the text [Number::toString] prints for them. *)
Module JS.

Inductive number : Type :=
| NaN
| Infinity (negative : bool)
| Int (z : Z)                (* an integer-valued double; -0 is [Int 0] *)
| Fraction (text : string).  (* a finite double that is not an integer *)

(** Round-to-nearest, ties-to-even conversion of a non-negative
    mathematical integer to a double; [None] stands for an overflow to
    Infinity. *)
Definition round_double (x : Z) : option Z :=
  if x <? 2 ^ 53 then Some x
  else
    let e := Z.log2 x - 52 in
    let q := x / 2 ^ e in
    let r := x mod 2 ^ e in
    let half := 2 ^ (e - 1) in
    let q' := if (half <? r) || ((r =? half) && Z.odd q) then q + 1 else q in
    let v := q' * 2 ^ e in
    if 2 ^ 1024 <=? v then None else Some v.

(** The Number for the mathematical integer [x >= 0] under a sign. *)
Definition of_integer (negative : bool) (x : Z) : number :=
  match round_double x with
  | None => Infinity negative
  | Some v => Int (if negative then - v else v)
  end.

(** *** Characters *)

Definition is_digit (c : ascii) : bool :=
  let n := nat_of_ascii c in ((48 <=? n) && (n <=? 57))%nat.

Definition digit_value (c : ascii) : Z := Z.of_nat (nat_of_ascii c) - 48.

Definition digit_char (d : Z) : ascii := ascii_of_nat (48 + Z.to_nat d).

(** StrWhiteSpaceChar: the code points TAB, LF, VT, FF, CR and SP are one
    byte each; the others (NBSP, U+1680, U+2000..U+200A, LS, PS, U+202F,
    U+205F, U+3000, U+FEFF) are matched on their UTF-8 encoding. *)
Definition is_ascii_space (c : ascii) : bool :=
  let n := nat_of_ascii c in (((9 <=? n) && (n <=? 13)) || (n =? 32))%nat.

Definition utf8_space3 (n n1 n2 : nat) : bool :=
  (((n =? 225) && (n1 =? 154) && (n2 =? 128)) ||
   ((n =? 226) && (n1 =? 128) &&
    (((128 <=? n2) && (n2 <=? 138)) || (n2 =? 168) || (n2 =? 169) || (n2 =? 175))) ||
   ((n =? 226) && (n1 =? 129) && (n2 =? 159)) ||
   ((n =? 227) && (n1 =? 128) && (n2 =? 128)) ||
   ((n =? 239) && (n1 =? 187) && (n2 =? 191)))%nat.

Definition strip_one_space (s : string) : option string :=
  match s with
  | String c r =>
      if is_ascii_space c then Some r
      else if (nat_of_ascii c =? 194)%nat then
        match r with
        | String c1 r1 => if (nat_of_ascii c1 =? 160)%nat then Some r1 else None
        | EmptyString => None
        end
      else
        match r with
        | String c1 (String c2 r2) =>
            if utf8_space3 (nat_of_ascii c) (nat_of_ascii c1) (nat_of_ascii c2)
            then Some r2 else None
        | _ => None
        end
  | EmptyString => None
  end.

(** The text without its leading white space; the fuel, one unit per
    code point removed, is the length of the text ([trim_start_done]). *)
Fixpoint trim_start_go (fuel : nat) (s : string) : string :=
  match fuel with
  | O => s
  | S f => match strip_one_space s with
           | Some r => trim_start_go f r
           | None => s
           end
  end.

Definition trim_start (s : string) : string :=
  trim_start_go (String.length s) s.

(** *** parseInt(s, 10)

    Leading white space is skipped, a sign is read, then the longest
    prefix of decimal digits; without a digit the result is NaN, and what
    follows the digits is ignored.  The value is converted to a double
    with correct rounding, as V8 does for any number of digits. *)

(** The value of the leading digits, [acc] if there is none. *)
Fixpoint read_digits (s : string) (acc : option Z) : option Z :=
  match s with
  | String c r =>
      if is_digit c
      then read_digits r (Some (10 * default 0 acc + digit_value c))
      else acc
  | EmptyString => acc
  end.

(** The sign of the text: with a leading "-" the result is negated, and a
    leading "+" or "-" is removed. *)
Definition has_minus (s : string) : bool :=
  match s with
  | String c _ => Ascii.eqb c "-"
  | EmptyString => false
  end.

Definition skip_sign (s : string) : string :=
  match s with
  | String c r => if Ascii.eqb c "+" || Ascii.eqb c "-" then r else s
  | EmptyString => s
  end.

Definition parseInt10 (input : string) : number :=
  let s := trim_start input in
  match read_digits (skip_sign s) None with
  | None => NaN
  | Some mathInt => of_integer (has_minus s) mathInt
  end.

Definition Number_isFinite (n : number) : bool :=
  match n with
  | Int _ | Fraction _ => true
  | NaN | Infinity _ => false
  end.

Definition Number_isInteger (n : number) : bool :=
  match n with
  | Int _ => true
  | _ => false
  end.

(** *** Number::toString (radix 10) *)

(** The digits of [n] in front of [acc], least significant first; one
    unit of fuel per digit. *)
Fixpoint decimal_go (fuel : nat) (n : Z) (acc : string) : string :=
  match fuel with
  | O => acc
  | S f =>
      let acc' := String (digit_char (n mod 10)) acc in
      if n <? 10 then acc' else decimal_go f (n / 10) acc'
  end.

(** Decimal digits of a non-negative integer ([read_digits_decimal]). *)
Definition decimal (n : Z) : string :=
  decimal_go (S (Z.to_nat (Z.log2 n))) n "".

Fixpoint zeros (n : nat) : string :=
  match n with
  | O => ""
  | S m => String "0" (zeros m)
  end.

(** The digit string [s] of [k] digits is a representation of the double
    [x] at decimal exponent [p] when [s * 10^p] converts back to [x]. *)
Definition represents (x s p k : Z) : bool :=
  (10 ^ (k - 1) <=? s) && (s <? 10 ^ k) &&
  match round_double (s * 10 ^ p) with
  | Some v => v =? x
  | None => false
  end.

(** The [k]-digit candidate closest to [x] among the two that bracket
    [x / 10^p]. *)
Definition candidate (x d k : Z) : option Z :=
  let p := d - k in
  let lo := x / 10 ^ p in
  let hi := lo + 1 in
  let ok_lo := represents x lo p k in
  let ok_hi := represents x hi p k in
  if ok_lo && ok_hi
  then Some (if x - lo * 10 ^ p <=? hi * 10 ^ p - x then lo else hi)
  else if ok_lo then Some lo
  else if ok_hi then Some hi
  else None.

(** The first [k], from 1 up to the 17 digits that always suffice, for
    which a candidate exists. *)
Fixpoint shortest_go (fuel : nat) (x d k : Z) : Z * Z :=
  match fuel with
  | O => (x, d)
  | S f =>
      match candidate x d k with
      | Some s => (s, k)
      | None => if d <=? k then (x, d) else shortest_go f x d (k + 1)
      end
  end.

(** [(s, k, n)]: the shortest digits [s], their number [k] and the
    position [n] of the decimal point, for an integer-valued double
    [x > 0] of [d] digits: [n] is [d], or [d + 1] when [x] is the double
    next below [10^d] that [10^d] itself converts to. *)
Definition shortest (x : Z) : Z * Z * Z :=
  let d := Z.of_nat (String.length (decimal x)) in
  match round_double (10 ^ d) with
  | Some v =>
      if v =? x then (1, 1, d + 1)
      else (shortest_go 17 x d 1, d)
  | None => (shortest_go 17 x d 1, d)
  end.

(** Below 2^53 every integer is a double and no shorter digit string
    converts back to [x], so the result is the decimal expansion of [x];
    above, the shortest digits are padded with zeros up to 21 digits and
    printed in exponent form beyond. *)
Definition toString_positive (x : Z) : string :=
  if x <? 2 ^ 53 then decimal x
  else
    let '(s, k, n) := shortest x in
    let digits := decimal s in
    if n <=? 21 then digits +:+ zeros (Z.to_nat (n - k))
    else
      match digits with
      | String c EmptyString => String c ("e+" +:+ decimal (n - 1))
      | String c rest => String c ("." +:+ rest +:+ "e+" +:+ decimal (n - 1))
      | EmptyString => ""
      end.

Definition Number_toString (n : number) : string :=
  match n with
  | NaN => "NaN"
  | Infinity false => "Infinity"
  | Infinity true => "-Infinity"
  | Fraction text => text
  | Int z =>
      if z =? 0 then "0"
      else if z <? 0 then "-" +:+ toString_positive (- z)
      else toString_positive z
  end.

(** *** Values and truthiness

    Values that reach the handlers through [req.body].  Objects and
    arrays are never inspected by the handlers (they are truthy and are
    not numbers); they are carried with the text node-postgres sends for
    them as a query parameter. *)
Inductive value : Type :=
| VUndefined
| VNull
| VBool (b : bool)
| VNumber (n : number)
| VString (s : string)
| VObject (pg_text : string).

(** ToBoolean *)
Definition truthy (v : value) : bool :=
  match v with
  | VUndefined | VNull => false
  | VBool b => b
  | VNumber NaN => false
  | VNumber (Int z) => negb (z =? 0)
  | VNumber _ => true
  | VString s => negb (String.eqb s "")
  | VObject _ => true
  end.

(** [Number.isInteger(v)] on an arbitrary value. *)
Definition isInteger (v : value) : bool :=
  match v with
  | VNumber n => Number_isInteger n
  | _ => false
  end.

(** *** JSON.parse

    [JSON.parse] is embedded as a recogniser of the JSON grammar: the
    handlers never look inside the parsed value, which is represented by
    the text it was parsed from.  [None] stands for the SyntaxError. *)
Inductive parsed : Type := FromText (text : string).

Definition is_json_space (c : ascii) : bool :=
  let n := nat_of_ascii c in
  ((n =? 9) || (n =? 10) || (n =? 13) || (n =? 32))%nat.

Fixpoint skip_ws (s : string) : string :=
  match s with
  | String c r => if is_json_space c then skip_ws r else s
  | EmptyString => s
  end.

Definition is_hex (c : ascii) : bool :=
  let n := nat_of_ascii c in
  (((48 <=? n) && (n <=? 57)) || ((65 <=? n) && (n <=? 70)) ||
   ((97 <=? n) && (n <=? 102)))%nat.

(** The double quote, code 34 *)
Definition dquote : ascii := ascii_of_nat 34.

Definition is_simple_escape (c : ascii) : bool :=
  Ascii.eqb c dquote ||
  match c with
  | "\"%char | "/"%char | "b"%char | "f"%char | "n"%char
  | "r"%char | "t"%char => true
  | _ => false
  end.

(** The characters of a string literal after its opening quote, up to and
    including the closing quote; the result is what follows. *)
Fixpoint json_string_tail (s : string) : option string :=
  match s with
  | EmptyString => None
  | String c r =>
      if Ascii.eqb c dquote then Some r
      else if Ascii.eqb c "\" then
        match r with
        | String e r1 =>
            if is_simple_escape e then json_string_tail r1
            else if Ascii.eqb e "u" then
              match r1 with
              | String h1 (String h2 (String h3 (String h4 r2))) =>
                  if is_hex h1 && is_hex h2 && is_hex h3 && is_hex h4
                  then json_string_tail r2 else None
              | _ => None
              end
            else None
        | EmptyString => None
        end
      else if (nat_of_ascii c <? 32)%nat then None else json_string_tail r
  end.

Fixpoint skip_digits (s : string) : string :=
  match s with
  | String c r => if is_digit c then skip_digits r else s
  | EmptyString => s
  end.

(** At least one digit. *)
Definition json_digits (s : string) : option string :=
  match s with
  | String c r => if is_digit c then Some (skip_digits r) else None
  | EmptyString => None
  end.

Definition json_int (s : string) : option string :=
  match s with
  | String c r => if Ascii.eqb c "0" then Some r else json_digits s
  | EmptyString => None
  end.

Definition json_frac (s : string) : option string :=
  match s with
  | String c r => if Ascii.eqb c "." then json_digits r else Some s
  | EmptyString => Some s
  end.

Definition json_exp (s : string) : option string :=
  match s with
  | String c r =>
      if Ascii.eqb c "e" || Ascii.eqb c "E" then json_digits (skip_sign r)
      else Some s
  | EmptyString => Some s
  end.

(** The optional minus sign of a number *)
Definition skip_minus (s : string) : string :=
  match s with
  | String c r => if Ascii.eqb c "-" then r else s
  | EmptyString => s
  end.

Definition json_number (s : string) : option string :=
  match json_int (skip_minus s) with
  | Some s2 =>
      match json_frac s2 with
      | Some s3 => json_exp s3
      | None => None
      end
  | None => None
  end.

Fixpoint strip_prefix (p s : string) : option string :=
  match p, s with
  | EmptyString, _ => Some s
  | String a p', String b s' => if Ascii.eqb a b then strip_prefix p' s' else None
  | String _ _, EmptyString => None
  end.

(** [json_value fuel s]: one JSON value preceded and followed by optional
    white space, at the head of [s]; the result is the rest of [s].
    [json_members] and [json_elements] read the inside of an object and
    of an array that are not empty.  A call spends one unit of fuel and
    is followed by another on the same text at most once before a
    character is consumed, so a fuel above twice the length of the text
    is never exhausted ([json_value_fuel] below). *)
Fixpoint json_value (fuel : nat) (s : string) : option string :=
  match fuel with
  | O => None
  | S f =>
      match skip_ws s with
      | String c r =>
          if Ascii.eqb c dquote then skip_ws <$> json_string_tail r
          else if Ascii.eqb c "{" then
            match skip_ws r with
            | String c1 r1 =>
                if Ascii.eqb c1 "}" then Some (skip_ws r1)
                else json_members f (String c1 r1)
            | EmptyString => None
            end
          else if Ascii.eqb c "[" then
            match skip_ws r with
            | String c1 r1 =>
                if Ascii.eqb c1 "]" then Some (skip_ws r1)
                else json_elements f (String c1 r1)
            | EmptyString => None
            end
          else if Ascii.eqb c "t" then skip_ws <$> strip_prefix "rue" r
          else if Ascii.eqb c "f" then skip_ws <$> strip_prefix "alse" r
          else if Ascii.eqb c "n" then skip_ws <$> strip_prefix "ull" r
          else skip_ws <$> json_number (String c r)
      | EmptyString => None
      end
  end
with json_members (fuel : nat) (s : string) : option string :=
  match fuel with
  | O => None
  | S f =>
      match skip_ws s with
      | String c r =>
          if Ascii.eqb c dquote then
            match json_string_tail r with
            | Some r1 =>
                match skip_ws r1 with
                | String c2 r2 =>
                    if Ascii.eqb c2 ":" then
                      match json_value f r2 with
                      | Some (String d r3) =>
                          if Ascii.eqb d "," then json_members f r3
                          else if Ascii.eqb d "}" then Some (skip_ws r3)
                          else None
                      | _ => None
                      end
                    else None
                | EmptyString => None
                end
            | None => None
            end
          else None
      | EmptyString => None
      end
  end
with json_elements (fuel : nat) (s : string) : option string :=
  match fuel with
  | O => None
  | S f =>
      match json_value f s with
      | Some (String d r) =>
          if Ascii.eqb d "," then json_elements f r
          else if Ascii.eqb d "]" then Some (skip_ws r)
          else None
      | _ => None
      end
  end.

Definition JSON_parse (text : string) : option parsed :=
  match json_value (S (2 * String.length text)) text with
  | Some EmptyString => Some (FromText text)
  | _ => None
  end.

(** *** JSON.stringify of strings and numbers *)

Definition hex_char (d : nat) : ascii :=
  if (d <? 10)%nat then ascii_of_nat (48 + d) else ascii_of_nat (87 + d).

(** One character inside QuoteJSONString *)
Definition json_escape (c : ascii) : string :=
  if Ascii.eqb c dquote then String "\" (String dquote EmptyString)
  else if Ascii.eqb c "\" then "\\"
  else
    let n := nat_of_ascii c in
    if (n =? 8)%nat then "\b"
    else if (n =? 12)%nat then "\f"
    else if (n =? 10)%nat then "\n"
    else if (n =? 13)%nat then "\r"
    else if (n =? 9)%nat then "\t"
    else if (n <? 32)%nat
         then "\u00" +:+ String (hex_char (n / 16))
                                (String (hex_char (n mod 16)) EmptyString)
         else String c EmptyString.

Fixpoint json_escape_all (s : string) : string :=
  match s with
  | EmptyString => ""
  | String c r => json_escape c +:+ json_escape_all r
  end.

Definition json_quote (s : string) : string :=
  String dquote (json_escape_all s +:+ String dquote EmptyString).

End JS.

(** ** The stores behind the pools *)

(** Modelled from the spec: the [products] table, whose schema is not
    part of the sources.  An entity has an integer key, a name, a price
    in minor units and a last-modified timestamp (the columns named by
    the INSERT and UPDATE statements).  [updated_at] holds the text the
    driver's Date serialises to. *)
Record Row : Type := mkRow {
  row_id : Z;
  row_name : string;
  row_price_cents : Z;
  row_updated_at : string
}.

(** Modelled from the spec: a PostgreSQL server as seen through a pool
    (an executor returning a row set or an error): whether queries
    succeed at all, the rows of [products], and the value of [NOW()].
    The declaration of the table is not among the sources; after the
    spec ("identified by an integer key", "price: integer minor-units")
    the columns [id] and [price_cents] have PostgreSQL's type integer,
    of 32 bits, and [name] the type text; no constraint beyond these
    types is modelled, so several rows may carry the same id. *)
Record Db : Type := mkDb {
  db_up : bool;
  db_rows : list Row;
  db_now : string
}.

(** The text node-postgres sends for a parameter ([None] is NULL). *)
Definition pg_text (v : JS.value) : option string :=
  match v with
  | JS.VUndefined | JS.VNull => None
  | JS.VBool b => Some (if b then "true" else "false")
  | JS.VNumber n => Some (JS.Number_toString n)
  | JS.VString s => Some s
  | JS.VObject t => Some t
  end.

(** A text made of decimal digits only *)
Fixpoint all_digits (s : string) : bool :=
  match s with
  | EmptyString => true
  | String c r => JS.is_digit c && all_digits r
  end.

(** The server's reading of the text of a parameter as a value of type
    integer: an optional sign and decimal digits, of a value from -2^31
    up to 2^31 - 1; [None] is the error it answers otherwise ("invalid
    input syntax for type integer", "out of range").  The white space
    the server would skip around the number does not occur in the text
    printed for a number. *)
Definition pg_integer (text : string) : option Z :=
  let digits := JS.skip_sign text in
  if all_digits digits then
    match JS.read_digits digits None with
    | Some n =>
        let z := if JS.has_minus text then - n else n in
        if (- 2 ^ 31 <=? z) && (z <? 2 ^ 31) then Some z else None
    | None => None
    end
  else None.

(** A parameter of a query in the place of an integer: the text
    node-postgres sends for it, as the server reads it. *)
Definition pg_int (v : JS.value) : option Z :=
  match pg_text v with
  | Some text => pg_integer text
  | None => None
  end.

(** The server's reading of the text of a parameter as a value of type
    text: any text without a NUL character, which the server refuses
    ("invalid byte sequence"). *)
Fixpoint has_nul (s : string) : bool :=
  match s with
  | EmptyString => false
  | String c r => Ascii.eqb c Ascii.zero || has_nul r
  end.

(** A parameter of a query in the place of a text *)
Definition pg_string (v : JS.value) : option string :=
  match pg_text v with
  | Some text => if has_nul text then None else Some text
  | None => None
  end.

(** SELECT * FROM products WHERE id = $1; [None] is a rejected query
    (server down, or an id whose text the server does not read as an
    integer). *)
Definition pg_select_by_id (db : Db) (id : JS.number) : option (list Row) :=
  if db_up db then
    match pg_int (JS.VNumber id) with
    | Some z => Some (filter (fun r => row_id r = z) (db_rows db))
    | None => None
    end
  else None.

Definition set_attrs (name : string) (price : Z) (now : string) (r : Row) : Row :=
  mkRow (row_id r) name price now.

(** UPDATE products SET name=$1, price_cents=$2, updated_at=NOW()
    WHERE id=$3 RETURNING *; the result is the rows returned and the
    store after the statement.  The query is rejected, and the store
    left as it was, when the server is down, when the name is NULL or
    not a text the server takes, or when the server does not read the
    text of the price or of the id as an integer. *)
Definition pg_update (db : Db) (name price : JS.value) (id : JS.number)
  : option (list Row) * Db :=
  if db_up db then
    match pg_string name, pg_int price, pg_int (JS.VNumber id) with
    | Some n, Some p, Some z =>
        let upd := fun r => if decide (row_id r = z)
                            then set_attrs n p (db_now db) r else r in
        let rows' := upd <$> db_rows db in
        (Some (filter (fun r => row_id r = z) rows'),
         mkDb (db_up db) rows' (db_now db))
    | _, _, _ => (None, db)
    end
  else (None, db).

(** JSON.stringify of a row object: its four properties in the order of
    the columns, numbers printed by [Number::toString], strings quoted. *)
Definition JSON_stringify (r : Row) : string :=
  "{" +:+ JS.json_quote "id" +:+ ":" +:+
    JS.Number_toString (JS.Int (row_id r)) +:+
  "," +:+ JS.json_quote "name" +:+ ":" +:+
    JS.json_quote (row_name r) +:+
  "," +:+ JS.json_quote "price_cents" +:+ ":" +:+
    JS.Number_toString (JS.Int (row_price_cents r)) +:+
  "," +:+ JS.json_quote "updated_at" +:+ ":" +:+
    JS.json_quote (row_updated_at r) +:+
  "}".

(** ** The world of the process *)

(** What can happen while a handler is suspended on I/O: the Redis client
    emits one of the events the process listens to, the connection to
    Redis changes state before any event is emitted, a key reaches its
    TTL, or the replica catches up with the primary. *)
Inductive Event : Type :=
| EmitReady
| EmitEnd
| EmitError
| LinkDown
| LinkUp
| Expire (key : string)
| Replicate.

(** Calls made to the collaborators, most recent first. *)
Inductive IO : Type :=
| RedisGET (key : string)
| RedisSET (key value : string) (ttl : JS.number)
| RedisDEL (key : string)
| ReadSelect (id : JS.number)
| WriteUpdate (name price : JS.value) (id : JS.number).

(** The state a handler runs in.  [redisReady] is the flag of the
    process; [redis_link] and [redis_data] are the Redis server as the
    client reaches it, which the flag may lag behind. *)
Record World : Type := mkWorld {
  redisReady : bool;                        (* let redisReady *)
  env_CACHE_TTL_SECONDS : option string;    (* process.env.CACHE_TTL_SECONDS *)
  redis_link : bool;                        (* commands reach the server *)
  redis_data : gmap string (string * Z);    (* value and TTL of each key *)
  readPool : Db;
  writePool : Db;
  pending : list (list Event);              (* events at the next suspensions *)
  trace : list IO
}.

Definition set_redisReady (b : bool) (w : World) : World :=
  mkWorld b (env_CACHE_TTL_SECONDS w) (redis_link w) (redis_data w)
          (readPool w) (writePool w) (pending w) (trace w).

Definition set_redis_link (b : bool) (w : World) : World :=
  mkWorld (redisReady w) (env_CACHE_TTL_SECONDS w) b (redis_data w)
          (readPool w) (writePool w) (pending w) (trace w).

Definition set_redis_data (d : gmap string (string * Z)) (w : World) : World :=
  mkWorld (redisReady w) (env_CACHE_TTL_SECONDS w) (redis_link w) d
          (readPool w) (writePool w) (pending w) (trace w).

Definition set_readPool (db : Db) (w : World) : World :=
  mkWorld (redisReady w) (env_CACHE_TTL_SECONDS w) (redis_link w) (redis_data w)
          db (writePool w) (pending w) (trace w).

Definition set_writePool (db : Db) (w : World) : World :=
  mkWorld (redisReady w) (env_CACHE_TTL_SECONDS w) (redis_link w) (redis_data w)
          (readPool w) db (pending w) (trace w).

Definition set_pending (p : list (list Event)) (w : World) : World :=
  mkWorld (redisReady w) (env_CACHE_TTL_SECONDS w) (redis_link w) (redis_data w)
          (readPool w) (writePool w) p (trace w).

Definition log (c : IO) (w : World) : World :=
  mkWorld (redisReady w) (env_CACHE_TTL_SECONDS w) (redis_link w) (redis_data w)
          (readPool w) (writePool w) (pending w) (c :: trace w).

(** redis.on("ready" / "end" / "error", ...) *)
Definition on_ready (w : World) : World := set_redisReady true w.
Definition on_end (w : World) : World := set_redisReady false w.
Definition on_error (w : World) : World := set_redisReady false w.

Definition apply_event (w : World) (e : Event) : World :=
  match e with
  | EmitReady => on_ready w
  | EmitEnd => on_end w
  | EmitError => on_error w
  | LinkDown => set_redis_link false w
  | LinkUp => set_redis_link true w
  | Expire k => set_redis_data (delete k (redis_data w)) w
  | Replicate =>
      set_readPool (mkDb (db_up (readPool w)) (db_rows (writePool w))
                         (db_now (readPool w))) w
  end.

(** A suspension on I/O ([await] of a call to Redis or to a pool): the
    events scheduled for it take place before the call takes effect.
    With nothing scheduled, nothing happens. *)
Definition suspend (w : World) : World :=
  match pending w with
  | [] => w
  | batch :: rest => foldl apply_event (set_pending rest w) batch
  end.

(** const CACHE_TTL_SECONDS = parseInt(process.env.CACHE_TTL_SECONDS || "60", 10) *)
Definition CACHE_TTL_SECONDS (w : World) : JS.number :=
  JS.parseInt10
    match env_CACHE_TTL_SECONDS w with
    | Some s => if String.eqb s "" then "60" else s
    | None => "60"
    end.

(** ** Computations that read and write a state and may throw *)

Inductive Error : Type :=
| RedisUnavailable      (* new Error("Redis unavailable") *)
| RedisClientError      (* a rejected redis.get / set / del *)
| PgError               (* a rejected pool.query *)
| SyntaxError.          (* thrown by JSON.parse *)

Inductive Result (A : Type) : Type :=
| Ok (a : A)
| Throw (e : Error).
Arguments Ok {A} a.
Arguments Throw {A} e.

(** A computation on a state [S]: a value or a thrown error, and the
    state reached. *)
Definition St (S A : Type) : Type := S -> Result A * S.

Definition st_ret {S A} (a : A) : St S A := fun s => (Ok a, s).

Definition st_bind {S A B} (m : St S A) (k : A -> St S B) : St S B :=
  fun s => match m s with
           | (Ok a, s') => k a s'
           | (Throw e, s') => (Throw e, s')
           end.

Definition throw {S A} (e : Error) : St S A := fun s => (Throw e, s).

(** try { m } catch { h } *)
Definition try_catch {S A} (m : St S A) (h : St S A) : St S A :=
  fun s => match m s with
           | (Ok a, s') => (Ok a, s')
           | (Throw _, s') => h s'
           end.

Definition get_state {S} : St S S := fun s => (Ok s, s).
Definition modify {S} (f : S -> S) : St S unit := fun s => (Ok tt, f s).

Notation "x <- m ;; k" := (st_bind m (fun x => k))
  (at level 100, m at next level, right associativity).
Notation "m ;;; k" := (st_bind m (fun _ => k))
  (at level 100, right associativity).

(** ** The Redis client and the pools *)

(** Computations on the world: every call below suspends the handler,
    is recorded in the trace, and throws when the promise rejects. *)
Definition M : Type -> Type := St World.

(** Redis's SET key value EX ttl accepts a positive integer of seconds
    and answers an error otherwise. *)
Definition redis_accepts_ttl (ttl : JS.number) : option Z :=
  match ttl with
  | JS.Int z => if 0 <? z then Some z else None
  | _ => None
  end.

(** await redis.get(key) *)
Definition redis_get (key : string) : M (option string) :=
  modify suspend ;;;
  modify (log (RedisGET key)) ;;;
  w <- get_state ;;
  if redis_link w then st_ret (fst <$> redis_data w !! key)
  else throw RedisClientError.

(** await redis.set(key, value, { EX: ttlSeconds }) *)
Definition redis_set (key value : string) (ttl : JS.number) : M unit :=
  modify suspend ;;;
  modify (log (RedisSET key value ttl)) ;;;
  w <- get_state ;;
  if redis_link w then
    match redis_accepts_ttl ttl with
    | Some seconds =>
        modify (set_redis_data (<[key := (value, seconds)]> (redis_data w)))
    | None => throw RedisClientError
    end
  else throw RedisClientError.

(** await redis.del(key) *)
Definition redis_del (key : string) : M unit :=
  modify suspend ;;;
  modify (log (RedisDEL key)) ;;;
  w <- get_state ;;
  if redis_link w then modify (set_redis_data (delete key (redis_data w)))
  else throw RedisClientError.

(** async function queryRead(text, params), for the statement
    SELECT * FROM products WHERE id = $1 *)
Definition queryRead (id : JS.number) : M (list Row) :=
  modify suspend ;;;
  modify (log (ReadSelect id)) ;;;
  w <- get_state ;;
  match pg_select_by_id (readPool w) id with
  | Some rows => st_ret rows
  | None => throw PgError
  end.

(** await writePool.query("UPDATE products ... RETURNING *", [name, price_cents, id]) *)
Definition writePool_update (name price : JS.value) (id : JS.number) : M (list Row) :=
  modify suspend ;;;
  modify (log (WriteUpdate name price id)) ;;;
  w <- get_state ;;
  match pg_update (writePool w) name price id with
  | (Some rows, db) => modify (set_writePool db) ;;; st_ret rows
  | (None, _) => throw PgError
  end.

(** ** src/api/index.js, lines 73-86 *)

Definition cacheGet (key : string) : M (option string) :=
  w <- get_state ;;
  if negb (redisReady w) then throw RedisUnavailable
  else redis_get key.

Definition cacheSet (key value : string) (ttlSeconds : JS.number) : M unit :=
  w <- get_state ;;
  if negb (redisReady w) then throw RedisUnavailable
  else redis_set key value ttlSeconds.

Definition cacheDel (key : string) : M unit :=
  w <- get_state ;;
  if negb (redisReady w) then throw RedisUnavailable
  else redis_del key.

(** ** Requests and responses *)

Record Request : Type := mkRequest {
  params_id : string;                       (* req.params.id *)
  req_body : option (gmap string JS.value)  (* req.body, None when undefined *)
}.

Inductive Body : Type :=
| ErrorBody (error : string)        (* { error: ... } *)
| HealthBody (fields : list (string * bool))
                                    (* { name: boolean, ... }, in order *)
| RowBody (row : Row)               (* r.rows[0] *)
| ParsedBody (v : JS.parsed).       (* JSON.parse(cached) *)

(** The [res] object: the status code, the headers set by the handler and
    the body passed to [res.json], if any yet. *)
Record Response : Type := mkResponse {
  status : Z;
  headers : list (string * string);
  body : option Body
}.

Definition fresh_response : Response := mkResponse 200 [] None.

(** A handler runs on its [res] and on the world. *)
Record Ctx : Type := mkCtx { res : Response; world : World }.

Definition H : Type -> Type := St Ctx.

Definition lift {A} (m : M A) : H A :=
  fun c => match m (world c) with
           | (r, w) => (r, mkCtx (res c) w)
           end.

Definition res_status (code : Z) : H unit :=
  modify (fun c => mkCtx (mkResponse code (headers (res c)) (body (res c))) (world c)).

Definition res_setHeader (name value : string) : H unit :=
  modify (fun c => mkCtx (mkResponse (status (res c))
                                     ((name, value) :: headers (res c))
                                     (body (res c))) (world c)).

Definition res_json (b : Body) : H unit :=
  modify (fun c => mkCtx (mkResponse (status (res c)) (headers (res c)) (Some b))
                         (world c)).

(** function ensureRedis(res) *)
Definition ensureRedis : H bool :=
  c <- get_state ;;
  if negb (redisReady (world c)) then
    res_status 503 ;;;
    res_json (ErrorBody "Redis unavailable") ;;;
    st_ret false
  else st_ret true.

(** [JSON.parse] inside a handler *)
Definition JSON_parse (text : string) : H JS.parsed :=
  match JS.JSON_parse text with
  | Some v => st_ret v
  | None => throw SyntaxError
  end.

(** Truthiness of the reply of [redis.get]: null and the empty string
    are falsy. *)
Definition cached_truthy (cached : option string) : bool :=
  match cached with
  | Some s => JS.truthy (JS.VString s)
  | None => false
  end.

(** `product:${id}` *)
Definition product_key (id : JS.number) : string :=
  "product:" +:+ JS.Number_toString id.

(** ** The routes *)

(** app.get("/health", ...) *)
Definition get_health : H unit :=
  c <- get_state ;;
  res_json (HealthBody [("ok", true); ("redis", redisReady (world c))]).

(** app.get("/products/:id", ...) *)
Definition get_product (req : Request) : H unit :=
  ready <- ensureRedis ;;
  if negb ready then st_ret tt else
  let id := JS.parseInt10 (params_id req) in
  if negb (JS.Number_isFinite id) then
    res_status 400 ;;; res_json (ErrorBody "Invalid id")
  else
  let key := product_key id in
  (* 1) Try cache *)
  returned <-
    try_catch
      (cached <- lift (cacheGet key) ;;
       if cached_truthy cached then
         res_setHeader "X-Cache" "HIT" ;;;
         v <- JSON_parse (default "" cached) ;;
         res_json (ParsedBody v) ;;;
         st_ret true
       else st_ret false)
      (res_status 503 ;;; res_json (ErrorBody "Redis unavailable") ;;;
       st_ret true) ;;
  if (returned : bool) then st_ret tt else
  (* 2) Cache miss -> DB (replica) *)
  rows <- lift (queryRead id) ;;
  match rows with
  | [] => res_status 404 ;;; res_json (ErrorBody "Not found")
  | row :: _ =>
      (* 3) Put in cache with TTL *)
      returned <-
        try_catch
          (c <- get_state ;;
           lift (cacheSet key (JSON_stringify row) (CACHE_TTL_SECONDS (world c))) ;;;
           st_ret false)
          (res_status 503 ;;; res_json (ErrorBody "Redis unavailable") ;;;
           st_ret true) ;;
      if (returned : bool) then st_ret tt else
      res_setHeader "X-Cache" "MISS" ;;;
      res_json (RowBody row)
  end.

(** const { name, price_cents } = req.body || {} *)
Definition body_field (req : Request) (field : string) : JS.value :=
  default JS.VUndefined (default ∅ (req_body req) !! field).

(** app.put("/products/:id", ...) *)
Definition put_product (req : Request) : H unit :=
  ready <- ensureRedis ;;
  if negb ready then st_ret tt else
  let id := JS.parseInt10 (params_id req) in
  if negb (JS.Number_isFinite id) then
    res_status 400 ;;; res_json (ErrorBody "Invalid id")
  else
  let name := body_field req "name" in
  let price_cents := body_field req "price_cents" in
  if negb (JS.truthy name) || negb (JS.isInteger price_cents) then
    res_status 400 ;;; res_json (ErrorBody "Expected { name, price_cents:int }")
  else
  (* 1) Update on primary *)
  rows <- lift (writePool_update name price_cents id) ;;
  match rows with
  | [] => res_status 404 ;;; res_json (ErrorBody "Not found")
  | row :: _ =>
      (* 2) Invalidate cache key *)
      returned <-
        try_catch
          (lift (cacheDel (product_key id)) ;;; st_ret false)
          (res_status 503 ;;; res_json (ErrorBody "Redis unavailable") ;;;
           st_ret true) ;;
      if (returned : bool) then st_ret tt else
      res_json (RowBody row)
  end.

(** What a client observes of a handler run on a fresh [res]: the
    response sent, or nothing from this code when the handler's promise
    rejects. *)
Inductive Outcome : Type :=
| Sent (r : Response)
| Rejected (e : Error).

Definition serve (h : H unit) (w : World) : Outcome * World :=
  match h (mkCtx fresh_response w) with
  | (Ok _, c) => (Sent (res c), world c)
  | (Throw e, c) => (Rejected e, world c)
  end.

(** ** The routes that do not use the cache *)

(** Rows in the order of ORDER BY id ASC *)
Definition id_le (a b : Row) : Prop := row_id a <= row_id b.

Definition id_le_dec (a b : Row) : Decision (id_le a b) :=
  Z_le_dec (row_id a) (row_id b).

(** SELECT * FROM products ORDER BY id ASC; [None] is a rejected query.
    Rows of equal id, whose order the statement leaves open, keep the
    order of the table. *)
Definition pg_select_all (db : Db) : option (list Row) :=
  if db_up db then Some (merge_sort id_le (H := id_le_dec) (db_rows db))
  else None.

(** async function queryRead(text, params), for the statement
    SELECT * FROM products ORDER BY id ASC; the trace has no entry for
    this statement. *)
Definition queryRead_all : M (list Row) :=
  modify suspend ;;;
  w <- get_state ;;
  match pg_select_all (readPool w) with
  | Some rows => st_ret rows
  | None => throw PgError
  end.

(** What a client observes of GET /products: the status and the array
    sent, or nothing when the handler's promise rejects. *)
Inductive ListOutcome : Type :=
| SentRows (code : Z) (rows : list Row)
| ListRejected (e : Error).

(** app.get("/products", ...) *)
Definition get_products (w : World) : ListOutcome * World :=
  match queryRead_all w with
  | (Ok rows, w') => (SentRows 200 rows, w')
  | (Throw e, w') => (ListRejected e, w')
  end.

(** INSERT INTO products(name, price_cents, updated_at)
    VALUES ($1, $2, NOW()) RETURNING *; [assigned] is the key the server
    gives the new row, which the sources leave to the table.  The query
    is rejected, and the store left as it was, when the server is down,
    when the name is NULL or not a text the server takes, or when the
    server does not read the text of the price as an integer. *)
Definition pg_insert (db : Db) (assigned : Z) (name price : JS.value)
  : option Row * Db :=
  if db_up db then
    match pg_string name, pg_int price with
    | Some n, Some p =>
        let row := mkRow assigned n p (db_now db) in
        (Some row, mkDb (db_up db) (db_rows db ++ [row]) (db_now db))
    | _, _ => (None, db)
    end
  else (None, db).

(** await writePool.query("INSERT INTO products ... RETURNING *",
    [name, price_cents]), down to r.rows[0]; the trace has no entry for
    this statement. *)
Definition writePool_insert (assigned : Z) (name price : JS.value) : M Row :=
  modify suspend ;;;
  w <- get_state ;;
  match pg_insert (writePool w) assigned name price with
  | (Some row, db) => modify (set_writePool db) ;;; st_ret row
  | (None, _) => throw PgError
  end.

(** app.post("/products", ...) *)
Definition post_product (assigned : Z) (req : Request) : H unit :=
  let name := body_field req "name" in
  let price_cents := body_field req "price_cents" in
  if negb (JS.truthy name) || negb (JS.isInteger price_cents) then
    res_status 400 ;;; res_json (ErrorBody "Expected { name, price_cents:int }")
  else
  row <- lift (writePool_insert assigned name price_cents) ;;
  res_status 201 ;;; res_json (RowBody row).

(** ** The vocabulary of the statements *)

(** *** Responses *)

(** 503 { error: "Redis unavailable" } *)
Definition unavailable : Response :=
  mkResponse 503 [] (Some (ErrorBody "Redis unavailable")).

(** 200 { ok: true, redis: flag } *)
Definition health (flag : bool) : Response :=
  mkResponse 200 [] (Some (HealthBody [("ok", true); ("redis", flag)])).

(** The names of the properties of the object GET /health sends, in
    their order *)
Definition health_keys (o : Outcome) : option (list string) :=
  match o with
  | Sent r =>
      match body r with
      | Some (HealthBody fields) => Some (fst <$> fields)
      | _ => None
      end
  | Rejected _ => None
  end.

(** The shape the spec gives the body of GET /health, in its own words:
    "{ok, cacheLive}". *)
Definition spec_health_keys : list string := ["ok"; "cacheLive"].

(** 404 { error: "Not found" } *)
Definition not_found : Response :=
  mkResponse 404 [] (Some (ErrorBody "Not found")).

(** 200 with X-Cache: HIT and the parsed text *)
Definition hit (v : JS.parsed) : Response :=
  mkResponse 200 [("X-Cache", "HIT")] (Some (ParsedBody v)).

(** 200 with X-Cache: MISS and the row *)
Definition miss (row : Row) : Response :=
  mkResponse 200 [("X-Cache", "MISS")] (Some (RowBody row)).

(** 200 with the row returned by the UPDATE *)
Definition updated (row : Row) : Response :=
  mkResponse 200 [] (Some (RowBody row)).

(** The status code a client receives, if a response is sent *)
Definition sent_status (o : Outcome) : option Z :=
  match o with
  | Sent r => Some (status r)
  | Rejected _ => None
  end.

(** 201 with the row returned by the INSERT *)
Definition created (row : Row) : Response :=
  mkResponse 201 [] (Some (RowBody row)).

(** 400 { error: "Expected { name, price_cents:int }" } *)
Definition bad_body : Response :=
  mkResponse 400 [] (Some (ErrorBody "Expected { name, price_cents:int }")).

(** 400 { error: "Invalid id" } *)
Definition bad_id : Response :=
  mkResponse 400 [] (Some (ErrorBody "Invalid id")).

(** 503 { error: "Redis unavailable" } sent after X-Cache: HIT was set *)
Definition unavailable_after_hit : Response :=
  mkResponse 503 [("X-Cache", "HIT")] (Some (ErrorBody "Redis unavailable")).

(** *** Requests *)

(** The id fails the test of lines 104-105 and 154-155. *)
Definition invalid_id (req : Request) : Prop :=
  JS.Number_isFinite (JS.parseInt10 (params_id req)) = false.

(** The body fails the test of line 158. *)
Definition invalid_body (req : Request) : Prop :=
  JS.truthy (body_field req "name") = false ∨
  JS.isInteger (body_field req "price_cents") = false.

(** The server reads the parameter as an integer: its text is an
    integer literal in the range of the column. *)
Definition pg_accepts (v : JS.value) : Prop := is_Some (pg_int v).

(** The server takes the parameter as a text: it is not NULL and its
    text has no NUL character. *)
Definition pg_accepts_text (v : JS.value) : Prop := is_Some (pg_string v).

(** The id and the body both pass. *)
Definition valid_update (req : Request) : Prop :=
  JS.Number_isFinite (JS.parseInt10 (params_id req)) = true ∧
  JS.truthy (body_field req "name") = true ∧
  JS.isInteger (body_field req "price_cents") = true.

(** The spec's reading of a valid id, in its own words: "a well-formed
    positive integer key", that is a non-empty text of decimal digits
    whose value is positive. *)
Definition well_formed_positive_key (s : string) : bool :=
  negb (String.eqb s "") && all_digits s &&
  (0 <? default 0 (JS.read_digits s None)).

(** *** Events *)

(** The value the last "ready", "end" or "error" of a batch gives the
    flag, if the batch has one. *)
Fixpoint last_emit (batch : list Event) (flag : option bool) : option bool :=
  match batch with
  | [] => flag
  | EmitReady :: rest => last_emit rest (Some true)
  | (EmitEnd | EmitError) :: rest => last_emit rest (Some false)
  | _ :: rest => last_emit rest flag
  end.

(** *** Calls and keys *)

(** The key a call to the Redis client is made on, if it is one. *)
Definition cache_key_of (c : IO) : option string :=
  match c with
  | RedisGET k | RedisSET k _ _ | RedisDEL k => Some k
  | ReadSelect _ | WriteUpdate _ _ _ => None
  end.

(** A call that is on [key] when it is a call to Redis *)
Definition on_key (key : string) (c : IO) : Prop :=
  ∀ k, cache_key_of c = Some k → k = key.

(** *** Texts of numbers *)

(** A digit string that does not start with a zero *)
Definition no_leading_zero (D : string) : Prop :=
  match D with
  | String c _ => Ascii.eqb c "0" = false
  | EmptyString => False
  end.

(** The number grammar after the optional sign *)
Definition json_unsigned (s : string) : option string :=
  match JS.json_int s with
  | Some s2 =>
      match JS.json_frac s2 with
      | Some s3 => JS.json_exp s3
      | None => None
      end
  | None => None
  end.

(** What follows a value inside an object *)
Definition delimiter (d : ascii) : Prop := d = ","%char ∨ d = "}"%char.

(** The texts [Number::toString] prints for a positive integer: digits,
    or digits with an exponent, with or without a fraction. *)
Inductive unsigned_text : string → Prop :=
| ut_integer (D : string) :
    all_digits D = true → no_leading_zero D → unsigned_text D
| ut_exponent (c : ascii) (E : string) :
    JS.is_digit c = true → all_digits E = true → E ≠ "" →
    unsigned_text (String c ("e+" +:+ E))
| ut_fraction (c : ascii) (R E : string) :
    JS.is_digit c = true → all_digits R = true → R ≠ "" →
    all_digits E = true → E ≠ "" →
    unsigned_text (String c ("." +:+ R +:+ "e+" +:+ E)).

(** *** Worlds and requests of the examples *)

Definition widget : Row := mkRow 7 "Widget" 999 "2024-01-01T00:00:00.000Z".

(** Redis connected and empty, one product on both servers, nothing
    scheduled *)
Definition live_world : World :=
  mkWorld true None true ∅ (mkDb true [widget] "2024-01-02T00:00:00.000Z")
          (mkDb true [widget] "2024-01-02T00:00:00.000Z") [] [].

(** The same with the flag down *)
Definition down_world : World := set_redisReady false live_world.

(** The body { name: "Widget2", price_cents: 1099 } *)
Definition widget2 : gmap string JS.value :=
  {[ "name" := JS.VString "Widget2"; "price_cents" := JS.VNumber (JS.Int 1099) ]}.

(** The product already cached *)
Definition cached_world : World :=
  set_redis_data {[ "product:7" := (JSON_stringify widget, 60) ]} live_world.

(** The client emits "error" during the second suspension. *)
Definition flaky_world : World := set_pending [[]; [EmitError]] live_world.

(** The client emits "end" during the first suspension. *)
Definition closing_world : World := set_pending [[EmitEnd]] live_world.

(** The product cached as a text that is not JSON *)
Definition corrupt_world : World :=
  set_redis_data {[ "product:7" := ("Widget", 60) ]} live_world.

(** The connection is lost before the flag learns of it. *)
Definition cut_world : World := set_pending [[LinkDown]] live_world.

(** The replica down, the rest as in [live_world] *)
Definition replica_down_world : World :=
  set_readPool (mkDb false [widget] "2024-01-02T00:00:00.000Z") live_world.

(** The TTL configured as 0 seconds *)
Definition zero_ttl_world : World :=
  mkWorld true (Some "0") true ∅ (mkDb true [widget] "2024-01-02T00:00:00.000Z")
          (mkDb true [widget] "2024-01-02T00:00:00.000Z") [] [].

(** The primary down, the rest as in [live_world] *)
Definition primary_down_world : World :=
  set_writePool (mkDb false [widget] "2024-01-02T00:00:00.000Z") live_world.

(** Redis down since the start, both servers up *)
Definition never_ready_world : World :=
  mkWorld false None false ∅ (mkDb true [widget] "2024-01-02T00:00:00.000Z")
          (mkDb true [widget] "2024-01-02T00:00:00.000Z") [] [].

(** The body { name: "Gadget", price_cents: 250 } *)
Definition gadget : gmap string JS.value :=
  {[ "name" := JS.VString "Gadget"; "price_cents" := JS.VNumber (JS.Int 250) ]}.

(** The body { name: "Widget2", price_cents: 1e21 } *)
Definition costly : gmap string JS.value :=
  {[ "name" := JS.VString "Widget2";
     "price_cents" := JS.VNumber (JS.Int (10 ^ 21)) ]}.

(** The body { name: "Wid\0get", price_cents: 1099 }, the name with a
    NUL character in it *)
Definition unnamed : gmap string JS.value :=
  {[ "name" := JS.VString ("Wid" +:+ String Ascii.zero "get");
     "price_cents" := JS.VNumber (JS.Int 1099) ]}.

(** * Properties *)

(** ** The built-ins *)

(** *** On concrete inputs *)

Example parseInt10_examples :
  JS.parseInt10 <$> ["7"; "007"; "  -12abc"; "+5"; "-0"; "1e3"; "0x10"; "3.9";
                     "9007199254740993"; "abc"; ""; "-"; "--5"; " - 1"]
  = [JS.Int 7; JS.Int 7; JS.Int (-12); JS.Int 5; JS.Int 0; JS.Int 1; JS.Int 0;
     JS.Int 3; JS.Int 9007199254740992; JS.NaN; JS.NaN; JS.NaN; JS.NaN; JS.NaN].
Proof. vm_compute. reflexivity. Qed.

Example parseInt10_overflow :
  JS.parseInt10 (JS.decimal (2 ^ 1024)) = JS.Infinity false ∧
  JS.parseInt10 (JS.decimal (2 ^ 1024 - 2 ^ 970 - 1)) = JS.Int (2 ^ 1024 - 2 ^ 971).
Proof. vm_compute. split; reflexivity. Qed.

Example Number_toString_examples :
  JS.Number_toString <$>
    [JS.Int 0; JS.Int (-7); JS.Int 100; JS.Int (2 ^ 53); JS.Int (2 ^ 60);
     JS.Int (2 ^ 64); JS.Int (10 ^ 21); JS.Int (- 2 ^ 70);
     JS.parseInt10 "100000000000000000000000";
     JS.parseInt10 "123456789012345678901234567890"]
  = ["0"; "-7"; "100"; "9007199254740992"; "1152921504606847000";
     "18446744073709552000"; "1e+21"; "-1.1805916207174113e+21";
     "1e+23"; "1.2345678901234568e+29"].
Proof. vm_compute. reflexivity. Qed.

Example JSON_parse_examples :
  (λ text, bool_decide (is_Some (JS.JSON_parse text))) <$>
    ["{}"; " [ ] "; "[1,2.5e-3,true,null,{}]"; "-0"; "1E+5"; "[[[]]]";
     ""; "  "; "01"; "1."; "+1"; ".5"; "[1,]"; "[1 2]"; "[1,2"; "{,}";
     "tru"; "nulll"; "NaN"; "{a:1}"; "1 2"]
  = [true; true; true; true; true; true;
     false; false; false; false; false; false; false; false; false; false;
     false; false; false; false; false].
Proof. vm_compute. reflexivity. Qed.

(** *** What validation lets through *)

Lemma round_double_of_integer (negative : bool) (x : Z) :
  JS.Number_isFinite (JS.of_integer negative x) = true →
  ∃ z, JS.of_integer negative x = JS.Int z.
Proof.
  unfold JS.of_integer. destruct (JS.round_double x); [eauto | discriminate].
Qed.

Lemma parseInt10_finite (s : string) :
  JS.Number_isFinite (JS.parseInt10 s) = true → ∃ z, JS.parseInt10 s = JS.Int z.
Proof.
  unfold JS.parseInt10. cbv zeta.
  destruct (JS.read_digits _ None); [| discriminate].
  apply round_double_of_integer.
Qed.

Lemma truthy_pg_text (v : JS.value) :
  JS.truthy v = true → ∃ text, pg_text v = Some text.
Proof. destruct v; simpl; try discriminate; eauto. Qed.

Lemma isInteger_Int (v : JS.value) :
  JS.isInteger v = true → ∃ p, v = JS.VNumber (JS.Int p).
Proof. destruct v as [| | | [] | |]; simpl; try discriminate; eauto. Qed.

Lemma JSON_parse_nonempty (text : string) (v : JS.parsed) :
  JS.JSON_parse text = Some v → JS.truthy (JS.VString text) = true.
Proof. destruct text; [discriminate | reflexivity]. Qed.

Lemma JSON_parse_text (text : string) (v : JS.parsed) :
  JS.JSON_parse text = Some v → v = JS.FromText text.
Proof.
  unfold JS.JSON_parse.
  destruct (JS.json_value _ _) as [[|]|]; congruence.
Qed.

(** *** Decimal digits

    [decimal] prints digits only, at least one, and no leading zero for a
    positive number. *)

Local Arguments append !s1 s2 : simpl nomatch.

Lemma append_assoc (a b c : string) : (a +:+ b) +:+ c = a +:+ (b +:+ c).
Proof. induction a as [| x a IH]; simpl; [reflexivity | now f_equal]. Qed.

Lemma all_digits_app (a b : string) :
  all_digits a = true → all_digits b = true → all_digits (a +:+ b) = true.
Proof.
  induction a as [| x a IH]; simpl; [easy |].
  intros [Hx Ha]%andb_prop Hb. rewrite Hx. simpl. now apply IH.
Qed.

Lemma digit_char_is_digit (d : Z) :
  0 <= d < 10 → JS.is_digit (JS.digit_char d) = true.
Proof.
  intros Hd.
  assert (Hcases : d = 0 ∨ d = 1 ∨ d = 2 ∨ d = 3 ∨ d = 4 ∨ d = 5 ∨ d = 6 ∨
                   d = 7 ∨ d = 8 ∨ d = 9) by lia.
  repeat (destruct Hcases as [-> | Hcases]; [reflexivity |]).
  now subst d.
Qed.

Lemma digit_char_nonzero (d : Z) :
  0 < d < 10 → Ascii.eqb (JS.digit_char d) "0" = false.
Proof.
  intros Hd.
  assert (Hcases : d = 1 ∨ d = 2 ∨ d = 3 ∨ d = 4 ∨ d = 5 ∨ d = 6 ∨
                   d = 7 ∨ d = 8 ∨ d = 9) by lia.
  repeat (destruct Hcases as [-> | Hcases]; [reflexivity |]).
  now subst d.
Qed.

Lemma decimal_go_S (fuel : nat) (n : Z) (acc : string) :
  JS.decimal_go (S fuel) n acc
  = if n <? 10 then String (JS.digit_char (n mod 10)) acc
    else JS.decimal_go fuel (n / 10) (String (JS.digit_char (n mod 10)) acc).
Proof. reflexivity. Qed.

Lemma decimal_go_digits (fuel : nat) (n : Z) (acc : string) :
  0 <= n →
  ∃ D, JS.decimal_go (S fuel) n acc = D +:+ acc ∧
       all_digits D = true ∧ D ≠ "".
Proof.
  revert n acc. induction fuel as [| fuel IH]; intros n acc Hn;
    rewrite decimal_go_S;
    assert (Hd : JS.is_digit (JS.digit_char (n mod 10)) = true)
      by (apply digit_char_is_digit, Z.mod_pos_bound; lia);
    assert (Hone : ∃ D, String (JS.digit_char (n mod 10)) acc = D +:+ acc ∧
                        all_digits D = true ∧ D ≠ "")
      by (exists (String (JS.digit_char (n mod 10)) ""); cbn [all_digits append];
          rewrite Hd; now repeat split).
  - destruct (n <? 10); exact Hone.
  - destruct (n <? 10); [exact Hone |].
    destruct (IH (n / 10) (String (JS.digit_char (n mod 10)) acc))
      as (D & HD & Hall & Hne); [apply Z.div_pos; lia |].
    exists (D +:+ String (JS.digit_char (n mod 10)) "").
    rewrite HD, append_assoc. split; [reflexivity |]. split.
    + apply all_digits_app; [exact Hall |]. cbn [all_digits]. now rewrite Hd.
    + destruct D; [congruence | discriminate].
Qed.

Lemma decimal_go_head (fuel : nat) (n : Z) (acc : string) :
  0 < n → n < 2 ^ Z.of_nat (S fuel) →
  no_leading_zero (JS.decimal_go (S fuel) n acc).
Proof.
  revert n acc. induction fuel as [| fuel IH]; intros n acc Hn Hbound;
    rewrite decimal_go_S.
  - change (2 ^ Z.of_nat 1) with 2 in Hbound.
    assert (n = 1) as -> by lia. reflexivity.
  - destruct (n <? 10) eqn:Hsmall.
    + apply Z.ltb_lt in Hsmall. cbn [no_leading_zero]. apply digit_char_nonzero.
      rewrite Z.mod_small by lia. lia.
    + apply Z.ltb_ge in Hsmall. apply IH.
      * apply Z.div_str_pos. lia.
      * rewrite Nat2Z.inj_succ, Z.pow_succ_r in Hbound by lia.
        apply Z.div_lt_upper_bound; lia.
Qed.

Lemma decimal_digits (n : Z) :
  0 <= n → all_digits (JS.decimal n) = true ∧ JS.decimal n ≠ "".
Proof.
  intros Hn. unfold JS.decimal.
  destruct (decimal_go_digits (Z.to_nat (Z.log2 n)) n "" Hn) as (D & HD & Hall & Hne).
  rewrite HD. clear HD.
  assert (HDnil : D +:+ "" = D).
  { clear. induction D as [| x D IH]; simpl; [reflexivity | now f_equal]. }
  now rewrite HDnil.
Qed.

Lemma decimal_head (n : Z) : 0 < n → no_leading_zero (JS.decimal n).
Proof.
  intros Hn. unfold JS.decimal. apply decimal_go_head; [exact Hn |].
  rewrite Nat2Z.inj_succ, Z2Nat.id by apply Z.log2_nonneg.
  apply Z.log2_spec. exact Hn.
Qed.

Lemma Number_toString_decimal (z : Z) :
  0 <= z < 2 ^ 53 → JS.Number_toString (JS.Int z) = JS.decimal z.
Proof.
  intros [Hlo Hhi]. unfold JS.Number_toString, JS.toString_positive.
  destruct (z =? 0) eqn:Hzero.
  - apply Z.eqb_eq in Hzero. now subst z.
  - destruct (z <? 0) eqn:Hneg; [apply Z.ltb_lt in Hneg; lia |].
    apply Z.ltb_lt in Hhi. now rewrite Hhi.
Qed.

(** *** JSON.parse accepts what JSON.stringify prints

    Numbers first: every text [Number::toString] prints for an integer is
    a JSON number. *)

Lemma skip_digits_app (D : string) (d : ascii) (rest : string) :
  all_digits D = true → JS.is_digit d = false →
  JS.skip_digits (D +:+ String d rest) = String d rest.
Proof.
  intros HD Hd. induction D as [| c D IH]; cbn [append JS.skip_digits].
  - now rewrite Hd.
  - cbn [all_digits] in HD. apply andb_prop in HD as [Hc HD].
    rewrite Hc. now apply IH.
Qed.

Lemma json_digits_app (D : string) (d : ascii) (rest : string) :
  all_digits D = true → D ≠ "" → JS.is_digit d = false →
  JS.json_digits (D +:+ String d rest) = Some (String d rest).
Proof.
  intros HD Hne Hd. destruct D as [| c D]; [congruence |].
  cbn [all_digits] in HD. apply andb_prop in HD as [Hc HD].
  cbn [append JS.json_digits]. rewrite Hc. f_equal.
  now apply skip_digits_app.
Qed.

Lemma delimiter_not_digit (d : ascii) : delimiter d → JS.is_digit d = false.
Proof. intros [-> | ->]; reflexivity. Qed.

Lemma json_int_digits (c : ascii) (r : string) :
  JS.is_digit c = true → Ascii.eqb c "0" = false →
  JS.json_int (String c r) = Some (JS.skip_digits r).
Proof.
  destruct c as [[] [] [] [] [] [] [] []]; intros Hc Hz;
    try discriminate Hc; try discriminate Hz; reflexivity.
Qed.

Lemma json_int_single (c x : ascii) (r : string) :
  JS.is_digit c = true → JS.is_digit x = false →
  JS.json_int (String c (String x r)) = Some (String x r).
Proof.
  intros Hc Hx.
  destruct c as [[] [] [] [] [] [] [] []]; try discriminate Hc;
    cbn [JS.json_int JS.json_digits JS.skip_digits]; rewrite ?Hx; reflexivity.
Qed.

Lemma json_tail_delimiter (d : ascii) (rest : string) :
  delimiter d →
  match JS.json_frac (String d rest) with
  | Some s3 => JS.json_exp s3
  | None => None
  end = Some (String d rest).
Proof. intros [-> | ->]; reflexivity. Qed.

Lemma unsigned_text_head (T : string) :
  unsigned_text T → ∃ c r, T = String c r ∧ JS.is_digit c = true.
Proof.
  intros [D HD Hz | c E Hc _ _ | c R E Hc _ _ _ _]; eauto.
  destruct D as [| c D]; [contradiction |].
  cbn [all_digits] in HD. apply andb_prop in HD as [Hc _]. eauto.
Qed.

Lemma unsigned_text_parses (T : string) (d : ascii) (rest : string) :
  unsigned_text T → delimiter d →
  json_unsigned (T +:+ String d rest) = Some (String d rest).
Proof.
  intros HT Hd. pose proof (delimiter_not_digit d Hd) as Hnd.
  unfold json_unsigned.
  destruct HT as [D HD Hz | c E Hc HE HEne | c R E Hc HR HRne HE HEne].
  - destruct D as [| c D]; [contradiction |].
    cbn [all_digits] in HD. apply andb_prop in HD as [Hc HD].
    cbn [append]. rewrite json_int_digits by assumption.
    rewrite skip_digits_app by assumption.
    now apply json_tail_delimiter.
  - cbn [append]. rewrite json_int_single by (exact Hc || reflexivity).
    cbn [JS.json_frac JS.json_exp].
    now apply json_digits_app.
  - cbn [append]. rewrite json_int_single by (exact Hc || reflexivity).
    cbn [JS.json_frac]. rewrite !append_assoc. cbn [append].
    rewrite json_digits_app by (assumption || reflexivity).
    cbn [JS.json_exp].
    now apply json_digits_app.
Qed.

Lemma zeros_digits (n : nat) : all_digits (JS.zeros n) = true.
Proof. induction n; [reflexivity | exact IHn]. Qed.

Lemma candidate_positive (x d k s : Z) :
  1 <= k → JS.candidate x d k = Some s → 0 < s.
Proof.
  intros Hk. unfold JS.candidate. cbv zeta.
  assert (Hrep : ∀ s' p, JS.represents x s' p k = true → 0 < s').
  { unfold JS.represents. intros s' p [[Hlo _]%andb_prop _]%andb_prop.
    apply Z.leb_le in Hlo.
    assert (0 < 10 ^ (k - 1)) by (apply Z.pow_pos_nonneg; lia). lia. }
  destruct (JS.represents x (x / 10 ^ (d - k)) (d - k) k) eqn:Hlo;
    destruct (JS.represents x (x / 10 ^ (d - k) + 1) (d - k) k) eqn:Hhi;
    cbn [andb]; try discriminate.
  - destruct (_ <=? _); intros [= <-]; eauto.
  - intros [= <-]; eauto.
  - intros [= <-]; eauto.
Qed.

Lemma shortest_go_positive (fuel : nat) (x d k : Z) :
  0 < x → 1 <= k → 0 < fst (JS.shortest_go fuel x d k).
Proof.
  intros Hx. revert k. induction fuel as [| fuel IH]; intros k Hk;
    cbn [JS.shortest_go]; [exact Hx |].
  destruct (JS.candidate x d k) as [s |] eqn:Hcand.
  - cbn [fst]. now apply (candidate_positive x d k).
  - destruct (d <=? k); [exact Hx |]. apply IH. lia.
Qed.

Lemma shortest_positive (x : Z) :
  0 < x → 0 < fst (fst (JS.shortest x)).
Proof.
  intros Hx. unfold JS.shortest. cbv zeta.
  pose proof (shortest_go_positive 17 x
                (Z.of_nat (String.length (JS.decimal x))) 1 Hx) as Hgo.
  destruct (JS.round_double _) as [v |].
  - destruct (v =? x); cbn [fst]; [lia | apply Hgo; lia].
  - cbn [fst]. apply Hgo. lia.
Qed.

Lemma toString_positive_text (x : Z) :
  0 < x → unsigned_text (JS.toString_positive x).
Proof.
  intros Hx. unfold JS.toString_positive.
  destruct (x <? 2 ^ 53).
  { apply ut_integer; [apply decimal_digits; lia | now apply decimal_head]. }
  pose proof (shortest_positive x Hx) as Hs.
  destruct (JS.shortest x) as [[s k] n]. cbn [fst] in Hs.
  destruct (decimal_digits s) as [Hall Hne]; [lia |].
  pose proof (decimal_head s Hs) as Hhead.
  destruct (n <=? 21) eqn:Hn.
  - apply ut_integer.
    + apply all_digits_app; [exact Hall | apply zeros_digits].
    + destruct (JS.decimal s); [contradiction | exact Hhead].
  - apply Z.leb_gt in Hn.
    destruct (decimal_digits (n - 1)) as [HE HEne]; [lia |].
    destruct (JS.decimal s) as [| c [| c' R]]; [congruence | |].
    + cbn [all_digits] in Hall. apply andb_prop in Hall as [Hc _].
      now apply ut_exponent.
    + cbn [all_digits] in Hall. apply andb_prop in Hall as [Hc HR].
      now apply ut_fraction.
Qed.

Lemma json_value_S (f : nat) (s : string) :
  JS.json_value (S f) s
  = match JS.skip_ws s with
    | String c r =>
        if Ascii.eqb c JS.dquote then JS.skip_ws <$> JS.json_string_tail r
        else if Ascii.eqb c "{" then
          match JS.skip_ws r with
          | String c1 r1 =>
              if Ascii.eqb c1 "}" then Some (JS.skip_ws r1)
              else JS.json_members f (String c1 r1)
          | EmptyString => None
          end
        else if Ascii.eqb c "[" then
          match JS.skip_ws r with
          | String c1 r1 =>
              if Ascii.eqb c1 "]" then Some (JS.skip_ws r1)
              else JS.json_elements f (String c1 r1)
          | EmptyString => None
          end
        else if Ascii.eqb c "t" then JS.skip_ws <$> JS.strip_prefix "rue" r
        else if Ascii.eqb c "f" then JS.skip_ws <$> JS.strip_prefix "alse" r
        else if Ascii.eqb c "n" then JS.skip_ws <$> JS.strip_prefix "ull" r
        else JS.skip_ws <$> JS.json_number (String c r)
    | EmptyString => None
    end.
Proof. reflexivity. Qed.

Lemma json_members_S (f : nat) (s : string) :
  JS.json_members (S f) s
  = match JS.skip_ws s with
    | String c r =>
        if Ascii.eqb c JS.dquote then
          match JS.json_string_tail r with
          | Some r1 =>
              match JS.skip_ws r1 with
              | String c2 r2 =>
                  if Ascii.eqb c2 ":" then
                    match JS.json_value f r2 with
                    | Some (String d r3) =>
                        if Ascii.eqb d "," then JS.json_members f r3
                        else if Ascii.eqb d "}" then Some (JS.skip_ws r3)
                        else None
                    | _ => None
                    end
                  else None
              | EmptyString => None
              end
          | None => None
          end
        else None
    | EmptyString => None
    end.
Proof. reflexivity. Qed.

Lemma json_elements_S (f : nat) (s : string) :
  JS.json_elements (S f) s
  = match JS.json_value f s with
    | Some (String d r) =>
        if Ascii.eqb d "," then JS.json_elements f r
        else if Ascii.eqb d "]" then Some (JS.skip_ws r)
        else None
    | _ => None
    end.
Proof. reflexivity. Qed.

Lemma skip_ws_dquote (r : string) :
  JS.skip_ws (String JS.dquote r) = String JS.dquote r.
Proof. reflexivity. Qed.

Lemma json_value_number_head (f : nat) (c : ascii) (r : string) :
  JS.is_digit c = true ∨ c = "-"%char →
  JS.json_value (S f) (String c r) = JS.skip_ws <$> JS.json_number (String c r).
Proof.
  intros [Hc | ->]; [| reflexivity].
  destruct c as [[] [] [] [] [] [] [] []]; try discriminate Hc; reflexivity.
Qed.

Lemma json_number_unsigned (c : ascii) (r : string) :
  JS.is_digit c = true →
  JS.json_number (String c r) = json_unsigned (String c r).
Proof.
  intros Hc.
  destruct c as [[] [] [] [] [] [] [] []]; try discriminate Hc; reflexivity.
Qed.

Lemma skip_ws_delimiter (d : ascii) (rest : string) :
  delimiter d → JS.skip_ws (String d rest) = String d rest.
Proof. intros [-> | ->]; reflexivity. Qed.

Lemma json_value_number (f : nat) (z : Z) (d : ascii) (rest : string) :
  delimiter d →
  JS.json_value (S f) (JS.Number_toString (JS.Int z) +:+ String d rest)
  = Some (String d rest).
Proof.
  intros Hd. cbn [JS.Number_toString].
  destruct (z =? 0) eqn:Hzero.
  { destruct Hd as [-> | ->]; reflexivity. }
  apply Z.eqb_neq in Hzero.
  destruct (z <? 0) eqn:Hneg.
  - apply Z.ltb_lt in Hneg.
    assert (HT : unsigned_text (JS.toString_positive (- z)))
      by (apply toString_positive_text; lia).
    cbn [append]. rewrite json_value_number_head by now right.
    change (JS.json_number (String "-" (JS.toString_positive (- z) +:+ String d rest)))
      with (json_unsigned (JS.toString_positive (- z) +:+ String d rest)).
    rewrite unsigned_text_parses by assumption.
    cbn [fmap option_fmap option_map]. now rewrite skip_ws_delimiter.
  - apply Z.ltb_ge in Hneg.
    assert (HT : unsigned_text (JS.toString_positive z))
      by (apply toString_positive_text; lia).
    destruct (unsigned_text_head _ HT) as (c & r & HTeq & Hc).
    pose proof (unsigned_text_parses _ d rest HT Hd) as Hparse.
    rewrite HTeq in *. cbn [append] in *.
    rewrite json_value_number_head by now left.
    rewrite json_number_unsigned by exact Hc.
    rewrite Hparse.
    cbn [fmap option_fmap option_map]. now rewrite skip_ws_delimiter.
Qed.

(** *** Strings *)

Lemma json_string_tail_escape (c : ascii) (tl : string) :
  JS.json_string_tail (JS.json_escape c +:+ tl) = JS.json_string_tail tl.
Proof. destruct c as [[] [] [] [] [] [] [] []]; reflexivity. Qed.

Lemma json_string_tail_quote (s rest : string) :
  JS.json_string_tail (JS.json_escape_all s +:+ String JS.dquote rest) = Some rest.
Proof.
  induction s as [| c s IH]; [reflexivity |].
  cbn [JS.json_escape_all]. now rewrite append_assoc, json_string_tail_escape.
Qed.

Lemma json_value_quote (f : nat) (s : string) (d : ascii) (rest : string) :
  delimiter d →
  JS.json_value (S f) (JS.json_quote s +:+ String d rest) = Some (String d rest).
Proof.
  intros Hd. unfold JS.json_quote. cbn [append].
  change (JS.json_value (S f) (String JS.dquote ?r))
    with (JS.skip_ws <$> JS.json_string_tail r).
  rewrite append_assoc. cbn [append]. rewrite json_string_tail_quote.
  cbn [fmap option_fmap option_map]. now rewrite skip_ws_delimiter.
Qed.

(** *** Objects *)

Lemma json_members_field (f : nat) (key V : string) (d : ascii) (rest : string) :
  delimiter d →
  (∀ f', JS.json_value (S f') (V +:+ String d rest) = Some (String d rest)) →
  JS.json_members (S (S f)) (JS.json_quote key +:+ String ":" (V +:+ String d rest))
  = if Ascii.eqb d "," then JS.json_members (S f) rest
    else Some (JS.skip_ws rest).
Proof.
  intros Hd HV. unfold JS.json_quote. cbn [append].
  rewrite json_members_S, skip_ws_dquote.
  change (Ascii.eqb JS.dquote JS.dquote) with true. cbv iota.
  rewrite append_assoc. cbn [append]. rewrite json_string_tail_quote.
  change (JS.skip_ws (String ":" ?r)) with (String ":" r).
  change (Ascii.eqb ":" ":") with true. cbv iota.
  rewrite HV. destruct Hd as [-> | ->]; reflexivity.
Qed.

Lemma json_value_object (f : nat) (key t : string) :
  JS.json_value (S f) (String "{" (JS.json_quote key +:+ t))
  = JS.json_members f (JS.json_quote key +:+ t).
Proof. reflexivity. Qed.

Lemma length_append (a b : string) :
  String.length (a +:+ b) = (String.length a + String.length b)%nat.
Proof. induction a as [| c a IH]; cbn [append String.length Nat.add]; congruence. Qed.

Lemma JSON_stringify_long (r : Row) : (5 <= String.length (JSON_stringify r))%nat.
Proof.
  unfold JSON_stringify. rewrite !length_append.
  change (String.length (JS.json_quote "id")) with 4%nat.
  cbn [String.length]. lia.
Qed.

(** [JSON.parse] accepts what [JSON.stringify] prints for a row. *)
Lemma JSON_parse_stringify (r : Row) :
  JS.JSON_parse (JSON_stringify r) = Some (JS.FromText (JSON_stringify r)).
Proof.
  unfold JS.JSON_parse.
  pose proof (JSON_stringify_long r) as Hlong.
  destruct (2 * String.length (JSON_stringify r))%nat
    as [| [| [| [| [| n]]]]] eqn:Hfuel; try lia.
  clear Hlong Hfuel.
  assert (Hvalue : JS.json_value (S (S (S (S (S (S n)))))) (JSON_stringify r)
                   = Some "").
  { unfold JSON_stringify. cbn [append].
    rewrite json_value_object.
    rewrite (json_members_field _ "id" _ ","%char) by
      (try (now left); intros; apply json_value_number; now left).
    cbn [Ascii.eqb Bool.eqb].
    rewrite (json_members_field _ "name" _ ","%char) by
      (try (now left); intros; apply json_value_quote; now left).
    cbn [Ascii.eqb Bool.eqb].
    rewrite (json_members_field _ "price_cents" _ ","%char) by
      (try (now left); intros; apply json_value_number; now left).
    cbn [Ascii.eqb Bool.eqb].
    rewrite (json_members_field _ "updated_at" _ "}"%char) by
      (try (now right); intros; apply json_value_quote; now right).
    reflexivity. }
  now rewrite Hvalue.
Qed.

(** *** The fuel of the recogniser is never exhausted *)

Lemma skip_ws_length (s : string) :
  (String.length (JS.skip_ws s) <= String.length s)%nat.
Proof.
  induction s as [| c s IH]; cbn [JS.skip_ws String.length]; [lia |].
  destruct (JS.is_json_space c); cbn [String.length]; lia.
Qed.

Lemma skip_digits_length (s : string) :
  (String.length (JS.skip_digits s) <= String.length s)%nat.
Proof.
  induction s as [| c s IH]; cbn [JS.skip_digits String.length]; [lia |].
  destruct (JS.is_digit c); cbn [String.length]; lia.
Qed.

Lemma json_digits_length (s r : string) :
  JS.json_digits s = Some r → (String.length r < String.length s)%nat.
Proof.
  destruct s as [| c s]; cbn [JS.json_digits]; [discriminate |].
  destruct (JS.is_digit c); [| discriminate]. intros [= <-].
  pose proof (skip_digits_length s). cbn [String.length]. lia.
Qed.

Lemma json_number_length (s r : string) :
  JS.json_number s = Some r → (String.length r < String.length s)%nat.
Proof.
  unfold JS.json_number.
  assert (Hminus : (String.length (JS.skip_minus s) <= String.length s)%nat).
  { destruct s as [| c s]; cbn [JS.skip_minus]; [lia |].
    destruct (Ascii.eqb c "-"); cbn [String.length]; lia. }
  destruct (JS.json_int (JS.skip_minus s)) as [s2 |] eqn:Hint; [| discriminate].
  assert (H2 : (String.length s2 < String.length (JS.skip_minus s))%nat).
  { destruct (JS.skip_minus s) as [| c t]; cbn [JS.json_int] in Hint; [discriminate |].
    destruct (Ascii.eqb c "0").
    - injection Hint as <-. cbn [String.length]. lia.
    - now apply json_digits_length. }
  destruct (JS.json_frac s2) as [s3 |] eqn:Hfrac; [| discriminate].
  assert (H3 : (String.length s3 <= String.length s2)%nat).
  { destruct s2 as [| c t]; cbn [JS.json_frac] in Hfrac.
    - injection Hfrac as <-. lia.
    - destruct (Ascii.eqb c ".").
      + apply json_digits_length in Hfrac. cbn [String.length]. lia.
      + injection Hfrac as <-. lia. }
  intros Hexp.
  assert (H4 : (String.length r <= String.length s3)%nat).
  { destruct s3 as [| c t]; cbn [JS.json_exp] in Hexp.
    - injection Hexp as <-. lia.
    - destruct (Ascii.eqb c "e" || Ascii.eqb c "E").
      + apply json_digits_length in Hexp.
        assert ((String.length (JS.skip_sign t) <= String.length t)%nat).
        { destruct t as [| x t]; cbn [JS.skip_sign]; [lia |].
          destruct (Ascii.eqb x "+" || Ascii.eqb x "-"); cbn [String.length]; lia. }
        cbn [String.length]. lia.
      + injection Hexp as <-. lia. }
  lia.
Qed.

Lemma strip_prefix_length (p s r : string) :
  JS.strip_prefix p s = Some r → (String.length r <= String.length s)%nat.
Proof.
  revert s. induction p as [| a p IH]; intros s; cbn [JS.strip_prefix].
  - intros [= <-]. lia.
  - destruct s as [| b s]; [discriminate |].
    destruct (Ascii.eqb a b); [| discriminate].
    intros H%IH. cbn [String.length]. lia.
Qed.

Lemma json_string_tail_length (s r : string) :
  JS.json_string_tail s = Some r → (String.length r < String.length s)%nat.
Proof.
  remember (String.length s) as n eqn:Hn.
  assert (Hle : (String.length s <= n)%nat) by lia. clear Hn.
  revert s r Hle. induction n as [| n IH]; intros s r Hle;
    destruct s as [| c s]; cbn [JS.json_string_tail String.length] in *;
    try discriminate; try lia.
  destruct (Ascii.eqb c JS.dquote); [intros [= <-]; lia |].
  destruct (Ascii.eqb c "\").
  - destruct s as [| e s]; [discriminate |]. cbn [String.length] in *.
    destruct (JS.is_simple_escape e).
    + intros H%IH; lia.
    + destruct (Ascii.eqb e "u"); [| discriminate].
      destruct s as [| h1 [| h2 [| h3 [| h4 s]]]]; try discriminate.
      cbn [String.length] in *.
      destruct (JS.is_hex h1 && JS.is_hex h2 && JS.is_hex h3 && JS.is_hex h4);
        [| discriminate].
      intros H%IH; lia.
  - destruct (nat_of_ascii c <? 32)%nat; [discriminate |].
    intros H%IH; lia.
Qed.

Lemma fmap_skip_ws_length (o : option string) (r : string) :
  JS.skip_ws <$> o = Some r →
  ∃ r0, o = Some r0 ∧ (String.length r <= String.length r0)%nat.
Proof.
  destruct o as [r0 |]; [| discriminate]. intros [= <-].
  exists r0. split; [reflexivity | apply skip_ws_length].
Qed.

(** A value, the members of an object and the elements of an array each
    consume at least one character. *)
Lemma json_consumes (f : nat) :
  (∀ s r, JS.json_value f s = Some r → (String.length r < String.length s)%nat) ∧
  (∀ s r, JS.json_members f s = Some r → (String.length r < String.length s)%nat) ∧
  (∀ s r, JS.json_elements f s = Some r → (String.length r < String.length s)%nat).
Proof.
  induction f as [| f (IHv & IHm & IHe)]; [repeat split; discriminate |].
  split; [| split]; intros s r.
  - rewrite json_value_S. pose proof (skip_ws_length s) as Hs.
    destruct (JS.skip_ws s) as [| c t]; [discriminate |].
    cbn [String.length] in Hs.
    destruct (Ascii.eqb c JS.dquote).
    { intros (r0 & H%json_string_tail_length & Hr)%fmap_skip_ws_length. lia. }
    destruct (Ascii.eqb c "{").
    { pose proof (skip_ws_length t) as Ht.
      destruct (JS.skip_ws t) as [| c1 t1]; [discriminate |].
      cbn [String.length] in Ht. destruct (Ascii.eqb c1 "}").
      - intros [= <-]. pose proof (skip_ws_length t1). lia.
      - intros H%IHm. cbn [String.length] in H. lia. }
    destruct (Ascii.eqb c "[").
    { pose proof (skip_ws_length t) as Ht.
      destruct (JS.skip_ws t) as [| c1 t1]; [discriminate |].
      cbn [String.length] in Ht. destruct (Ascii.eqb c1 "]").
      - intros [= <-]. pose proof (skip_ws_length t1). lia.
      - intros H%IHe. cbn [String.length] in H. lia. }
    destruct (Ascii.eqb c "t").
    { intros (r0 & H%strip_prefix_length & Hr)%fmap_skip_ws_length. lia. }
    destruct (Ascii.eqb c "f").
    { intros (r0 & H%strip_prefix_length & Hr)%fmap_skip_ws_length. lia. }
    destruct (Ascii.eqb c "n").
    { intros (r0 & H%strip_prefix_length & Hr)%fmap_skip_ws_length. lia. }
    intros (r0 & H%json_number_length & Hr)%fmap_skip_ws_length.
    cbn [String.length] in H. lia.
  - rewrite json_members_S. pose proof (skip_ws_length s) as Hs.
    destruct (JS.skip_ws s) as [| c t]; [discriminate |].
    cbn [String.length] in Hs.
    destruct (Ascii.eqb c JS.dquote); [| discriminate].
    destruct (JS.json_string_tail t) as [r1 |] eqn:Htail; [| discriminate].
    apply json_string_tail_length in Htail.
    pose proof (skip_ws_length r1) as Hr1.
    destruct (JS.skip_ws r1) as [| c2 r2]; [discriminate |].
    cbn [String.length] in Hr1.
    destruct (Ascii.eqb c2 ":"); [| discriminate].
    destruct (JS.json_value f r2) as [[| d r3] |] eqn:Hval; try discriminate.
    apply IHv in Hval. cbn [String.length] in Hval.
    destruct (Ascii.eqb d ","); [intros H%IHm; lia |].
    destruct (Ascii.eqb d "}"); [| discriminate].
    intros [= <-]. pose proof (skip_ws_length r3). lia.
  - rewrite json_elements_S.
    destruct (JS.json_value f s) as [[| d r0] |] eqn:Hval; try discriminate.
    apply IHv in Hval. cbn [String.length] in Hval.
    destruct (Ascii.eqb d ","); [intros H%IHe; lia |].
    destruct (Ascii.eqb d "]"); [| discriminate].
    intros [= <-]. pose proof (skip_ws_length r0). lia.
Qed.

(** Above twice the length of the text, the result does not depend on
    the fuel. *)
Lemma json_fuel (f : nat) :
  (∀ f' s, (2 * String.length s < f)%nat → (2 * String.length s < f')%nat →
           JS.json_value f s = JS.json_value f' s) ∧
  (∀ f' s, (2 * String.length s + 1 < f)%nat → (2 * String.length s + 1 < f')%nat →
           JS.json_members f s = JS.json_members f' s) ∧
  (∀ f' s, (2 * String.length s + 1 < f)%nat → (2 * String.length s + 1 < f')%nat →
           JS.json_elements f s = JS.json_elements f' s).
Proof.
  induction f as [| f (IHv & IHm & IHe)]; [repeat split; intros; lia |].
  destruct (json_consumes f) as (Cv & _ & _).
  split; [| split]; intros [| f'] s Hf Hf'; try lia.
  - rewrite !json_value_S. pose proof (skip_ws_length s) as Hs.
    destruct (JS.skip_ws s) as [| c t]; [reflexivity |].
    cbn [String.length] in Hs.
    destruct (Ascii.eqb c JS.dquote); [reflexivity |].
    destruct (Ascii.eqb c "{").
    { pose proof (skip_ws_length t) as Ht.
      destruct (JS.skip_ws t) as [| c1 t1]; [reflexivity |].
      destruct (Ascii.eqb c1 "}"); [reflexivity |].
      apply IHm; lia. }
    destruct (Ascii.eqb c "[").
    { pose proof (skip_ws_length t) as Ht.
      destruct (JS.skip_ws t) as [| c1 t1]; [reflexivity |].
      destruct (Ascii.eqb c1 "]"); [reflexivity |].
      apply IHe; lia. }
    reflexivity.
  - rewrite !json_members_S. pose proof (skip_ws_length s) as Hs.
    destruct (JS.skip_ws s) as [| c t]; [reflexivity |].
    cbn [String.length] in Hs.
    destruct (Ascii.eqb c JS.dquote); [| reflexivity].
    destruct (JS.json_string_tail t) as [r1 |] eqn:Htail; [| reflexivity].
    apply json_string_tail_length in Htail.
    pose proof (skip_ws_length r1) as Hr1.
    destruct (JS.skip_ws r1) as [| c2 r2]; [reflexivity |].
    cbn [String.length] in Hr1.
    destruct (Ascii.eqb c2 ":"); [| reflexivity].
    rewrite <- (IHv f' r2) by lia.
    destruct (JS.json_value f r2) as [[| d r3] |] eqn:Hval; try reflexivity.
    apply Cv in Hval. cbn [String.length] in Hval.
    destruct (Ascii.eqb d ","); [apply IHm; lia | reflexivity].
  - rewrite !json_elements_S.
    rewrite <- (IHv f' s) by lia.
    destruct (JS.json_value f s) as [[| d r0] |] eqn:Hval; try reflexivity.
    apply Cv in Hval. cbn [String.length] in Hval.
    destruct (Ascii.eqb d ","); [apply IHe; lia | reflexivity].
Qed.

(** [JSON.parse] rejects a text for its syntax only: more fuel changes
    nothing. *)
Lemma json_value_fuel (fuel : nat) (text : string) :
  (2 * String.length text < fuel)%nat →
  JS.json_value fuel text = JS.json_value (S (2 * String.length text)) text.
Proof. intros Hfuel. apply json_fuel; lia. Qed.

(** *** parseInt reads back what Number::toString prints *)

Lemma strip_one_space_length (s r : string) :
  JS.strip_one_space s = Some r → (String.length r < String.length s)%nat.
Proof.
  destruct s as [| c s]; cbn [JS.strip_one_space]; [discriminate |].
  destruct (JS.is_ascii_space c); [intros [= <-]; cbn [String.length]; lia |].
  destruct (nat_of_ascii c =? 194)%nat.
  - destruct s as [| c1 s]; [discriminate |].
    destruct (nat_of_ascii c1 =? 160)%nat; [| discriminate].
    intros [= <-]. cbn [String.length]. lia.
  - destruct s as [| c1 [| c2 s]]; try discriminate.
    destruct (JS.utf8_space3 _ _ _); [| discriminate].
    intros [= <-]. cbn [String.length]. lia.
Qed.

(** [trim_start] leaves no white space at the head: its fuel suffices. *)
Lemma trim_start_done (s : string) :
  JS.strip_one_space (JS.trim_start s) = None.
Proof.
  unfold JS.trim_start.
  assert (Hgo : ∀ fuel t, (String.length t <= fuel)%nat →
                  JS.strip_one_space (JS.trim_start_go fuel t) = None).
  { induction fuel as [| fuel IH]; intros t Hlen; cbn [JS.trim_start_go].
    - destruct t; [reflexivity | cbn [String.length] in Hlen; lia].
    - destruct (JS.strip_one_space t) as [r |] eqn:Hstrip; [| exact Hstrip].
      apply IH. apply strip_one_space_length in Hstrip. lia. }
  now apply Hgo.
Qed.

Lemma digit_head (c : ascii) (r : string) :
  JS.is_digit c = true →
  JS.strip_one_space (String c r) = None ∧
  JS.skip_sign (String c r) = String c r ∧
  JS.has_minus (String c r) = false.
Proof.
  intros Hc.
  destruct c as [[] [] [] [] [] [] [] []]; try discriminate Hc;
    (split; [destruct r as [| c1 [| c2 r]]; reflexivity | split; reflexivity]).
Qed.

Lemma digit_value_char (d : Z) :
  0 <= d < 10 → JS.digit_value (JS.digit_char d) = d.
Proof.
  intros Hd.
  assert (Hcases : d = 0 ∨ d = 1 ∨ d = 2 ∨ d = 3 ∨ d = 4 ∨ d = 5 ∨ d = 6 ∨
                   d = 7 ∨ d = 8 ∨ d = 9) by lia.
  repeat (destruct Hcases as [-> | Hcases]; [reflexivity |]).
  now subst d.
Qed.

Lemma read_digits_digit (d : Z) (s : string) (acc : option Z) :
  0 <= d < 10 →
  JS.read_digits (String (JS.digit_char d) s) acc
  = JS.read_digits s (Some (10 * default 0 acc + d)).
Proof.
  intros Hd. cbn [JS.read_digits].
  now rewrite digit_char_is_digit, digit_value_char.
Qed.

Lemma read_digits_decimal_go (fuel : nat) (n : Z) (s : string) (acc : option Z) :
  0 <= n < 2 ^ Z.of_nat (S fuel) →
  ∃ k, JS.read_digits (JS.decimal_go (S fuel) n s) acc
       = JS.read_digits s (Some (default 0 acc * 10 ^ k + n)) ∧ 0 <= k.
Proof.
  revert n s. induction fuel as [| fuel IH]; intros n s Hn;
    rewrite decimal_go_S;
    pose proof (Z.mod_pos_bound n 10 ltac:(lia)) as Hd.
  - change (2 ^ Z.of_nat 1) with 2 in Hn.
    assert (Hsmall : (n <? 10) = true) by (apply Z.ltb_lt; lia).
    rewrite Hsmall, read_digits_digit by exact Hd.
    exists 1. rewrite Z.mod_small by lia. split; [do 2 f_equal; lia | lia].
  - destruct (n <? 10) eqn:Hsmall.
    + apply Z.ltb_lt in Hsmall. rewrite read_digits_digit by exact Hd.
      exists 1. rewrite Z.mod_small by lia. split; [do 2 f_equal; lia | lia].
    + apply Z.ltb_ge in Hsmall.
      destruct (IH (n / 10) (String (JS.digit_char (n mod 10)) s)) as (k & Hk & Hk0).
      { split; [apply Z.div_pos; lia |].
        rewrite Nat2Z.inj_succ, Z.pow_succ_r in Hn by lia.
        apply Z.div_lt_upper_bound; lia. }
      rewrite Hk, read_digits_digit by exact Hd.
      exists (k + 1). split; [| lia]. do 2 f_equal.
      rewrite Z.pow_add_r, Z.pow_1_r by lia.
      pose proof (Z.div_mod n 10 ltac:(lia)). cbn [default from_option id]. lia.
Qed.

Lemma read_digits_decimal (n : Z) :
  0 <= n → JS.read_digits (JS.decimal n) None = Some n.
Proof.
  intros Hn. unfold JS.decimal.
  destruct (read_digits_decimal_go (Z.to_nat (Z.log2 n)) n "" None) as (k & Hk & _).
  { split; [exact Hn |].
    rewrite Nat2Z.inj_succ, Z2Nat.id by apply Z.log2_nonneg.
    destruct (Z.eq_dec n 0) as [-> | Hne]; [reflexivity |].
    apply Z.log2_spec. lia. }
  rewrite Hk. cbn [JS.read_digits default from_option]. f_equal; lia.
Qed.

Lemma parseInt10_toString (z : Z) :
  - 2 ^ 53 < z < 2 ^ 53 →
  JS.parseInt10 (JS.Number_toString (JS.Int z)) = JS.Int z.
Proof.
  intros Hz. cbn [JS.Number_toString].
  assert (Hround : ∀ x, 0 <= x < 2 ^ 53 → JS.round_double x = Some x).
  { intros x Hx. unfold JS.round_double.
    destruct (x <? 2 ^ 53) eqn:Hlt; [reflexivity | apply Z.ltb_ge in Hlt; lia]. }
  destruct (z =? 0) eqn:Hzero; [apply Z.eqb_eq in Hzero; now subst z |].
  apply Z.eqb_neq in Hzero.
  destruct (z <? 0) eqn:Hneg.
  - apply Z.ltb_lt in Hneg. unfold JS.toString_positive.
    assert (Hsafe : (- z <? 2 ^ 53) = true) by (apply Z.ltb_lt; lia).
    rewrite Hsafe. cbn [append]. unfold JS.parseInt10, JS.trim_start.
    assert (Hstrip : JS.strip_one_space (String "-" (JS.decimal (- z))) = None).
    { destruct (JS.decimal (- z)) as [| c1 [| c2 r]]; reflexivity. }
    cbn [String.length JS.trim_start_go]. rewrite Hstrip.
    cbn [JS.skip_sign JS.has_minus Ascii.eqb Bool.eqb orb].
    rewrite read_digits_decimal by lia.
    unfold JS.of_integer. rewrite Hround by lia. f_equal. lia.
  - apply Z.ltb_ge in Hneg. unfold JS.toString_positive.
    assert (Hsafe : (z <? 2 ^ 53) = true) by (apply Z.ltb_lt; lia).
    rewrite Hsafe. unfold JS.parseInt10, JS.trim_start.
    pose proof (read_digits_decimal z Hneg) as Hread.
    destruct (decimal_digits z Hneg) as [Hall Hne].
    destruct (JS.decimal z) as [| c r]; [congruence |].
    cbn [all_digits] in Hall. apply andb_prop in Hall as [Hc _].
    destruct (digit_head c r Hc) as (Hstrip & Hsign & Hminus).
    cbn [String.length JS.trim_start_go]. rewrite Hstrip, Hsign, Hminus, Hread.
    unfold JS.of_integer. now rewrite Hround by lia.
Qed.

(** An id the spec calls well formed is read as the positive integer it
    spells: it passes the validation of the routes unless it overflows
    to Infinity. *)
Lemma well_formed_key_parsed (s : string) :
  well_formed_positive_key s = true →
  ∃ n, 0 < n ∧ JS.read_digits s None = Some n ∧
       JS.parseInt10 s = JS.of_integer false n.
Proof.
  unfold well_formed_positive_key.
  intros [[Hne Hall]%andb_prop Hpos]%andb_prop.
  destruct s as [| c r]; [discriminate |].
  cbn [all_digits] in Hall. apply andb_prop in Hall as [Hc _].
  destruct (digit_head c r Hc) as (Hstrip & Hsign & Hminus).
  assert (Hread : ∃ n, JS.read_digits (String c r) None = Some n).
  { cbn [JS.read_digits]. rewrite Hc. generalize (10 * default 0 None + JS.digit_value c).
    clear. induction r as [| x r IH]; intros a; cbn [JS.read_digits]; [eauto |].
    destruct (JS.is_digit x); eauto. }
  destruct Hread as [n Hn]. rewrite Hn in Hpos. cbn [default from_option id] in Hpos.
  apply Z.ltb_lt in Hpos. exists n. split; [exact Hpos |]. split; [exact Hn |].
  unfold JS.parseInt10, JS.trim_start.
  cbn [String.length JS.trim_start_go]. now rewrite Hstrip, Hsign, Hminus, Hn.
Qed.

(** *** The server's reading of the text of a number *)

Lemma decimal_go_app (fuel : nat) (n : Z) (acc : string) :
  JS.decimal_go (S fuel) n acc = JS.decimal_go (S fuel) n "" +:+ acc.
Proof.
  revert n acc. induction fuel as [| fuel IH]; intros n acc;
    rewrite !(decimal_go_S _ n).
  - destruct (n <? 10); reflexivity.
  - destruct (n <? 10); [reflexivity |].
    rewrite IH, (IH _ (String _ "")), append_assoc. reflexivity.
Qed.

Lemma read_digits_zeros (m : nat) (a : Z) :
  JS.read_digits (JS.zeros m) (Some a) = Some (a * 10 ^ Z.of_nat m).
Proof.
  revert a. induction m as [| m IH]; intros a.
  - cbn [JS.zeros JS.read_digits]. f_equal. change (10 ^ Z.of_nat 0) with 1. lia.
  - cbn [JS.zeros JS.read_digits]. change (JS.is_digit "0") with true.
    cbv iota. rewrite IH. cbn [default from_option id].
    change (JS.digit_value "0") with 0. f_equal.
    rewrite Nat2Z.inj_succ, Z.pow_succ_r by lia. lia.
Qed.

Lemma read_digits_decimal_zeros (s : Z) (m : nat) :
  0 <= s →
  JS.read_digits (JS.decimal s +:+ JS.zeros m) None = Some (s * 10 ^ Z.of_nat m).
Proof.
  intros Hs. unfold JS.decimal. rewrite <- decimal_go_app.
  destruct (read_digits_decimal_go (Z.to_nat (Z.log2 s)) s (JS.zeros m) None)
    as (k & Hk & _).
  { split; [exact Hs |].
    rewrite Nat2Z.inj_succ, Z2Nat.id by apply Z.log2_nonneg.
    destruct (Z.eq_dec s 0) as [-> | Hne]; [reflexivity |].
    apply Z.log2_spec. lia. }
  rewrite Hk, read_digits_zeros. cbn [default from_option id]. f_equal; lia.
Qed.

Lemma round_double_large (v x : Z) :
  JS.round_double v = Some x → 2 ^ 53 <= x → 2 ^ 53 <= v.
Proof.
  unfold JS.round_double. destruct (v <? 2 ^ 53) eqn:Hv.
  - intros [= ->] Hx. apply Z.ltb_lt in Hv. lia.
  - intros _ _. now apply Z.ltb_ge in Hv.
Qed.

Lemma represents_large (x s p k : Z) :
  2 ^ 53 <= x → JS.represents x s p k = true → 2 ^ 53 <= s * 10 ^ p.
Proof.
  intros Hx. unfold JS.represents. intros [_ Hround]%andb_prop.
  destruct (JS.round_double (s * 10 ^ p)) as [v |] eqn:Hv; [| discriminate].
  apply Z.eqb_eq in Hround. subst v. exact (round_double_large _ _ Hv Hx).
Qed.

Lemma candidate_large (x d k s : Z) :
  2 ^ 53 <= x → JS.candidate x d k = Some s → 2 ^ 53 <= s * 10 ^ (d - k).
Proof.
  intros Hx. unfold JS.candidate. cbv zeta.
  destruct (JS.represents x (x / 10 ^ (d - k)) (d - k) k) eqn:Hlo;
    destruct (JS.represents x (x / 10 ^ (d - k) + 1) (d - k) k) eqn:Hhi;
    cbn [andb]; try discriminate.
  - destruct (_ <=? _); intros [= <-]; eapply represents_large; eassumption.
  - intros [= <-]. eapply represents_large; eassumption.
  - intros [= <-]. eapply represents_large; eassumption.
Qed.

Lemma shortest_go_large (fuel : nat) (x d k0 s k : Z) :
  2 ^ 53 <= x → JS.shortest_go fuel x d k0 = (s, k) →
  2 ^ 53 <= s * 10 ^ (d - k).
Proof.
  intros Hx. revert k0.
  assert (Hself : ∀ s' k', (x, d) = (s', k') → 2 ^ 53 <= s' * 10 ^ (d - k')).
  { intros s' k' [= <- <-]. rewrite Z.sub_diag. change (10 ^ 0) with 1. lia. }
  induction fuel as [| fuel IH]; intros k0; cbn [JS.shortest_go];
    [apply Hself |].
  destruct (JS.candidate x d k0) as [s0 |] eqn:Hcand.
  - intros [= <- <-]. exact (candidate_large x d k0 s0 Hx Hcand).
  - destruct (d <=? k0); [apply Hself | apply IH].
Qed.

Lemma shortest_large (x s k n : Z) :
  2 ^ 53 <= x → JS.shortest x = (s, k, n) → 2 ^ 53 <= s * 10 ^ (n - k).
Proof.
  intros Hx. unfold JS.shortest. cbv zeta.
  set (d := Z.of_nat (String.length (JS.decimal x))).
  assert (Hgo : (JS.shortest_go 17 x d 1, d) = (s, k, n) →
                2 ^ 53 <= s * 10 ^ (n - k)).
  { destruct (JS.shortest_go 17 x d 1) as [s' k'] eqn:Hgo.
    intros [= <- <- <-]. exact (shortest_go_large _ _ _ _ _ _ Hx Hgo). }
  destruct (JS.round_double (10 ^ d)) as [v |] eqn:Hv; [| exact Hgo].
  destruct (v =? x) eqn:Heq; [| exact Hgo].
  apply Z.eqb_eq in Heq. subst v. intros [= <- <- <-].
  replace (d + 1 - 1) with d by lia.
  pose proof (round_double_large _ _ Hv Hx). lia.
Qed.

(** The text of an integer of 2^53 or more is not read by the server as
    a number below 2^53: it has an exponent, or its digits spell a
    number that large. *)
Lemma toString_positive_large (x : Z) :
  2 ^ 53 <= x →
  all_digits (JS.toString_positive x) = false ∨
  ∃ V, JS.read_digits (JS.toString_positive x) None = Some V ∧ 2 ^ 53 <= V.
Proof.
  intros Hx. unfold JS.toString_positive.
  destruct (x <? 2 ^ 53) eqn:Hlt; [apply Z.ltb_lt in Hlt; lia |].
  destruct (JS.shortest x) as [[s k] n] eqn:Hshort.
  pose proof (shortest_large _ _ _ _ Hx Hshort) as Hlarge.
  assert (Hpow : 0 <= n - k).
  { destruct (Z.neg_nonneg_cases (n - k)) as [Hneg | ?]; [| assumption].
    rewrite (Z.pow_neg_r _ _ Hneg), Z.mul_0_r in Hlarge.
    change (2 ^ 53) with 9007199254740992 in Hlarge. lia. }
  assert (Hs : 0 < s).
  { assert (0 < 10 ^ (n - k)) by (apply Z.pow_pos_nonneg; lia).
    change (2 ^ 53) with 9007199254740992 in Hlarge. nia. }
  destruct (n <=? 21).
  - right. exists (s * 10 ^ (n - k)). split; [| exact Hlarge].
    rewrite read_digits_decimal_zeros by lia. now rewrite Z2Nat.id.
  - left. destruct (decimal_digits s) as [_ Hne]; [lia |].
    destruct (JS.decimal s) as [| c [| c' R]]; [congruence | |];
      cbn [all_digits append]; apply andb_false_intro2; reflexivity.
Qed.

(** The server reads the text printed for an integer as that integer
    when it is from -2^31 up to 2^31 - 1, and refuses it otherwise. *)
Lemma pg_integer_toString (z : Z) :
  pg_integer (JS.Number_toString (JS.Int z))
  = if (- 2 ^ 31 <=? z) && (z <? 2 ^ 31) then Some z else None.
Proof.
  assert (Hread : ∀ (neg : bool) (x : Z), 0 < x →
            pg_integer ((if neg then "-" else "") +:+ JS.toString_positive x)
            = let v := if neg then - x else x in
              if (- 2 ^ 31 <=? v) && (v <? 2 ^ 31) then Some v else None).
  { intros neg x Hx. cbv zeta.
    destruct (unsigned_text_head _ (toString_positive_text x Hx))
      as (c & r & HT & Hc).
    destruct (digit_head c r Hc) as (_ & Hsign & Hminus).
    assert (Hskip : JS.skip_sign ((if neg then "-" else "") +:+ JS.toString_positive x)
                    = JS.toString_positive x
                    ∧ JS.has_minus ((if neg then "-" else "") +:+ JS.toString_positive x)
                      = neg).
    { destruct neg; cbn [append]; [split; reflexivity |].
      rewrite HT. split; assumption. }
    destruct Hskip as [Hskip Hneg]. unfold pg_integer. cbv zeta.
    rewrite Hskip, Hneg.
    assert (Hout : ∀ V, 2 ^ 53 <= V →
              ((- 2 ^ 31 <=? (if neg then - V else V))
               && ((if neg then - V else V) <? 2 ^ 31)) = false).
    { intros V HV. change (2 ^ 53) with 9007199254740992 in HV.
      change (2 ^ 31) with 2147483648.
      destruct neg; [apply andb_false_intro1 | apply andb_false_intro2];
        [apply Z.leb_gt | apply Z.ltb_ge]; lia. }
    destruct (Z_lt_le_dec x (2 ^ 53)) as [Hsmall | Hbig].
    - unfold JS.toString_positive. apply Z.ltb_lt in Hsmall. rewrite Hsmall.
      destruct (decimal_digits x) as [Hall _]; [lia |].
      rewrite Hall, read_digits_decimal by lia. reflexivity.
    - rewrite (Hout x Hbig).
      destruct (toString_positive_large x Hbig) as [Hall | (V & HV & HVbig)].
      + now rewrite Hall.
      + rewrite HV, (Hout V HVbig). now destruct (all_digits _). }
  cbn [JS.Number_toString].
  destruct (z =? 0) eqn:Hzero; [apply Z.eqb_eq in Hzero; now subst z |].
  apply Z.eqb_neq in Hzero.
  destruct (z <? 0) eqn:Hneg.
  - apply Z.ltb_lt in Hneg. rewrite (Hread true (- z)) by lia. cbv zeta.
    now rewrite Z.opp_involutive.
  - apply Z.ltb_ge in Hneg. exact (Hread false z ltac:(lia)).
Qed.

Local Arguments append s1 s2 : simpl never.

(** ** The stores *)

Lemma filter_none (z : Z) (rows : list Row) :
  (∀ row, row ∈ rows → row_id row ≠ z) →
  filter (λ r, row_id r = z) rows = [].
Proof.
  intros Hnone. induction rows as [| r rows IH]; [reflexivity |].
  rewrite filter_cons. destruct (decide (row_id r = z)) as [Heq | _].
  - exfalso. apply (Hnone r); [left | exact Heq].
  - apply IH. intros row Hin. apply Hnone. now right.
Qed.

Lemma fmap_update_absent (z : Z) (f : Row → Row) (rows : list Row) :
  (∀ row, row ∈ rows → row_id row ≠ z) →
  (λ r, if decide (row_id r = z) then f r else r) <$> rows = rows.
Proof.
  intros Hnone. induction rows as [| r rows IH]; [reflexivity |].
  rewrite fmap_cons. destruct (decide (row_id r = z)) as [Heq | _].
  - exfalso. apply (Hnone r); [left | exact Heq].
  - f_equal. apply IH. intros row Hin. apply Hnone. now right.
Qed.

Lemma pg_int_Int (z : Z) :
  pg_int (JS.VNumber (JS.Int z))
  = if (- 2 ^ 31 <=? z) && (z <? 2 ^ 31) then Some z else None.
Proof. apply pg_integer_toString. Qed.

(** The integer the server reads in the text of an integer is that
    integer. *)
Lemma pg_int_read (z k : Z) :
  pg_int (JS.VNumber (JS.Int z)) = Some k → k = z.
Proof.
  rewrite pg_int_Int. destruct (_ && _); [| discriminate]. now intros [= ->].
Qed.

Lemma pg_int_in_range (z : Z) :
  - 2 ^ 31 <= z < 2 ^ 31 → pg_int (JS.VNumber (JS.Int z)) = Some z.
Proof.
  intros [Hlo Hhi]. rewrite pg_int_Int.
  apply Z.leb_le in Hlo. apply Z.ltb_lt in Hhi. now rewrite Hlo, Hhi.
Qed.

Lemma pg_string_text (v : JS.value) (text : string) :
  pg_string v = Some text → pg_text v = Some text.
Proof.
  unfold pg_string. destruct (pg_text v) as [t |]; [| discriminate].
  destruct (has_nul t); [discriminate | exact id].
Qed.

Lemma pg_update_absent (db : Db) (name price : JS.value) (id : JS.number)
    (text : string) (p z : Z) :
  db_up db = true → pg_string name = Some text →
  pg_int price = Some p → pg_int (JS.VNumber id) = Some z →
  (∀ row, row ∈ db_rows db → row_id row ≠ z) →
  pg_update db name price id = (Some [], db).
Proof.
  intros Hup Htext Hprice Hid Hnone. unfold pg_update.
  rewrite Hup, Htext, Hprice, Hid.
  rewrite fmap_update_absent by exact Hnone.
  rewrite filter_none by exact Hnone.
  destruct db; simpl in *. now subst.
Qed.

(** What a successful UPDATE returns and leaves behind: the rows with
    the id, all carrying the new attributes. *)
Lemma pg_update_ok (db db' : Db) (name price : JS.value) (id : JS.number)
    (rows : list Row) :
  JS.isInteger price = true →
  pg_update db name price id = (Some rows, db') →
  (∀ r, r ∈ rows → r ∈ db_rows db') ∧
  (∀ r, r ∈ db_rows db' → JS.Int (row_id r) = id →
        pg_text name = Some (row_name r) ∧
        price = JS.VNumber (JS.Int (row_price_cents r)) ∧
        row_updated_at r = db_now db).
Proof.
  intros [p0 ->]%isInteger_Int.
  unfold pg_update. destruct (db_up db); [| discriminate].
  destruct (pg_string name) as [text |] eqn:Htext; [| discriminate].
  apply pg_string_text in Htext. rewrite Htext.
  destruct (pg_int (JS.VNumber (JS.Int p0))) as [p |] eqn:Hprice;
    [| discriminate].
  apply pg_int_read in Hprice. subst p.
  destruct (pg_int (JS.VNumber id)) as [z |] eqn:Hid; [| discriminate].
  intros [= <- <-]. cbn [db_rows]. split.
  - intros r Hin. apply list_elem_of_filter in Hin. tauto.
  - intros r Hin Heq. rewrite <- Heq in Hid. apply pg_int_read in Hid.
    apply list_elem_of_fmap in Hin as (r0 & -> & _). revert Hid.
    destruct (decide (row_id r0 = z)) as [_ | Hne]; intros Hid.
    + now cbn.
    + now symmetry in Hid.
Qed.

(** ** What a suspension cannot change *)

Lemma foldl_apply_event_inv {A} (f : World → A) :
  (∀ w e, f (apply_event w e) = f w) →
  ∀ batch w, f (foldl apply_event w batch) = f w.
Proof.
  intros Hstep batch. induction batch as [| e batch IH]; intros w; simpl.
  - reflexivity.
  - rewrite IH. apply Hstep.
Qed.

Lemma suspend_inv {A} (f : World → A) :
  (∀ w e, f (apply_event w e) = f w) →
  (∀ w p, f (set_pending p w) = f w) →
  ∀ w, f (suspend w) = f w.
Proof.
  intros Hstep Hpend w. unfold suspend.
  destruct (pending w) as [| batch rest]; [reflexivity |].
  rewrite foldl_apply_event_inv by exact Hstep. apply Hpend.
Qed.

Lemma suspend_trace (w : World) : trace (suspend w) = trace w.
Proof. apply suspend_inv; [intros ? [] | intros]; reflexivity. Qed.

Lemma suspend_writePool (w : World) : writePool (suspend w) = writePool w.
Proof. apply suspend_inv; [intros ? [] | intros]; reflexivity. Qed.

Lemma suspend_env (w : World) :
  env_CACHE_TTL_SECONDS (suspend w) = env_CACHE_TTL_SECONDS w.
Proof. apply suspend_inv; [intros ? [] | intros]; reflexivity. Qed.

Lemma suspend_ttl (w : World) : CACHE_TTL_SECONDS (suspend w) = CACHE_TTL_SECONDS w.
Proof. unfold CACHE_TTL_SECONDS. now rewrite suspend_env. Qed.

(** No event creates a cache entry. *)
Lemma suspend_absent (key : string) (w : World) :
  redis_data w !! key = None → redis_data (suspend w) !! key = None.
Proof.
  assert (Hbatch : ∀ batch w', redis_data w' !! key = None →
                     redis_data (foldl apply_event w' batch) !! key = None).
  { induction batch as [| e batch IH]; intros w' Hw'; simpl; [exact Hw' |].
    apply IH. destruct e; simpl; try exact Hw'.
    destruct (decide (key0 = key)) as [-> | Hne].
    - apply lookup_delete_eq.
    - rewrite lookup_delete_ne by exact Hne. exact Hw'. }
  intros Hw. unfold suspend.
  destruct (pending w) as [| batch rest]; [exact Hw |].
  apply Hbatch. exact Hw.
Qed.

(** A suspension during which nothing happens *)
Lemma suspend_quiet (w : World) :
  hd [] (pending w) = [] → suspend w = set_pending (tl (pending w)) w.
Proof.
  unfold suspend. destruct w as [r e l d rp wp p t]; simpl.
  destruct p as [| batch rest]; simpl; [reflexivity |].
  intros ->. reflexivity.
Qed.

(** ** Running a handler symbolically *)

Ltac run_handler :=
  cbv beta iota zeta delta
    [serve get_health get_product put_product ensureRedis cacheGet cacheSet
     cacheDel redis_get redis_set redis_del queryRead writePool_update lift
     try_catch st_bind st_ret throw get_state modify res_status res_setHeader
     res_json JSON_parse fresh_response res world status headers body].

Ltac step_world :=
  cbn [log set_redis_data set_writePool set_pending redisReady redis_link
       redis_data readPool writePool pending trace env_CACHE_TTL_SECONDS
       negb orb fst snd fmap option_fmap option_map cached_truthy default
       from_option id].

Ltac step_world_in_all :=
  cbn [log set_redis_data set_writePool set_pending redisReady redis_link
       redis_data readPool writePool pending trace env_CACHE_TTL_SECONDS
       negb orb fst snd fmap option_fmap option_map cached_truthy default
       from_option id] in *.

(** Unfold, reduce, rewrite with the facts at hand, and again. *)
Ltac exec_with rw := repeat (progress (run_handler; step_world; rw)).

(** *** The calls, one by one *)

Lemma cacheGet_live (key : string) (w : World) :
  redisReady w = true → redis_link (suspend w) = true →
  cacheGet key w
  = (Ok (fst <$> redis_data (suspend w) !! key), log (RedisGET key) (suspend w)).
Proof.
  intros Hready Hlink.
  exec_with ltac:(rewrite ?Hready, ?Hlink). reflexivity.
Qed.

Lemma cacheGet_unfold (key : string) (w : World) :
  cacheGet key w
  = if redisReady w then
      let w1 := log (RedisGET key) (suspend w) in
      if redis_link w1 then (Ok (fst <$> redis_data w1 !! key), w1)
      else (Throw RedisClientError, w1)
    else (Throw RedisUnavailable, w).
Proof.
  run_handler. destruct (redisReady w); step_world; [| reflexivity].
  run_handler. step_world.
  destruct (redis_link (suspend w)); reflexivity.
Qed.

Lemma queryRead_unfold (id : JS.number) (w : World) :
  queryRead id w
  = (match pg_select_by_id (readPool (suspend w)) id with
     | Some rows => Ok rows
     | None => Throw PgError
     end, log (ReadSelect id) (suspend w)).
Proof.
  run_handler. step_world.
  destruct (pg_select_by_id _ _); reflexivity.
Qed.

Lemma writePool_update_unfold (name price : JS.value) (id : JS.number) (w : World) :
  writePool_update name price id w
  = match pg_update (writePool w) name price id with
    | (Some rows, db) =>
        (Ok rows, set_writePool db (log (WriteUpdate name price id) (suspend w)))
    | (None, _) => (Throw PgError, log (WriteUpdate name price id) (suspend w))
    end.
Proof.
  run_handler. step_world. rewrite suspend_writePool.
  destruct (pg_update _ _ _ _) as [[rows |] db]; reflexivity.
Qed.

Lemma cacheSet_unfold (key value : string) (ttl : JS.number) (w : World) :
  cacheSet key value ttl w
  = if redisReady w then
      let w1 := log (RedisSET key value ttl) (suspend w) in
      if redis_link w1 then
        match redis_accepts_ttl ttl with
        | Some seconds =>
            (Ok tt, set_redis_data (<[key := (value, seconds)]> (redis_data w1)) w1)
        | None => (Throw RedisClientError, w1)
        end
      else (Throw RedisClientError, w1)
    else (Throw RedisUnavailable, w).
Proof.
  run_handler. destruct (redisReady w); step_world; [| reflexivity].
  run_handler. step_world.
  destruct (redis_link (suspend w)); [| reflexivity].
  destruct (redis_accepts_ttl ttl); reflexivity.
Qed.

Lemma cacheDel_unfold (key : string) (w : World) :
  cacheDel key w
  = if redisReady w then
      let w1 := log (RedisDEL key) (suspend w) in
      if redis_link w1
      then (Ok tt, set_redis_data (delete key (redis_data w1)) w1)
      else (Throw RedisClientError, w1)
    else (Throw RedisUnavailable, w).
Proof.
  run_handler. destruct (redisReady w); step_world; [| reflexivity].
  run_handler. step_world.
  destruct (redis_link (suspend w)); reflexivity.
Qed.

Lemma cacheDel_writePool (key : string) (w w' : World) (r : Result unit) :
  cacheDel key w = (r, w') → writePool w' = writePool w.
Proof.
  rewrite cacheDel_unfold. cbv zeta.
  destruct (redisReady w); [| now intros [= _ <-]].
  destruct (redis_link _); intros [= _ <-]; step_world; apply suspend_writePool.
Qed.

Lemma cacheSet_ok (key value : string) (ttl : JS.number) (w0 w : World) :
  cacheSet key value ttl w0 = (Ok tt, w) →
  redis_link w = true ∧ ∃ seconds, redis_data w !! key = Some (value, seconds).
Proof.
  run_handler.
  destruct (redisReady w0); step_world; [| discriminate].
  run_handler. step_world.
  destruct (redis_link (suspend w0)) eqn:Hlink; [| discriminate].
  destruct (redis_accepts_ttl ttl) as [seconds |]; [| discriminate].
  run_handler. intros [= <-]. step_world. split; [exact Hlink |].
  exists seconds. apply lookup_insert_eq.
Qed.

(** Unfold a route down to its calls, which are kept folded. *)
Ltac run_route :=
  cbv beta iota zeta delta
    [serve get_health get_product put_product ensureRedis lift
     try_catch st_bind st_ret throw get_state modify res_status res_setHeader
     res_json JSON_parse fresh_response res world status headers body].

Ltac route_with rw := repeat (progress (run_route; step_world; rw)).

Ltac trace_simpl :=
  repeat first [rewrite suspend_trace | progress step_world].

Ltac new_calls :=
  first [ exists [] ; split; [reflexivity |]
        | eexists [_]; split; [reflexivity |]
        | eexists [_; _]; split; [reflexivity |]
        | eexists [_; _; _]; split; [reflexivity |] ];
  repeat match goal with
         | |- Forall _ (_ :: _) => constructor
         | |- Forall _ [] => constructor
         | |- on_key _ _ => intros k Hk; simpl in Hk; congruence
         end.

(** One case distinction on the next undetermined test of a route. *)
Ltac split_path :=
  match goal with
  | |- context [pg_update ?db ?n ?p ?i] =>
      destruct (pg_update db n p i) as [[? |] ?] eqn:?
  | |- context [if ?b then _ else _] =>
      lazymatch type of b with bool => destruct b eqn:? end
  | |- context [match ?o with Some _ => _ | None => _ end] =>
      destruct o eqn:?
  | |- context [match ?l with [] => _ | _ :: _ => _ end] =>
      destruct l eqn:?
  end.

(** Every path through a route, one goal per path. *)
Ltac all_paths :=
  exec_with idtac; repeat (split_path; exec_with idtac).

(** ** GET /health *)

(** C9, as stated, fails on the shape of the body: the object sent has
    the properties [ok] and [redis], and none named [cacheLive]. *)
Lemma health_shape_counterexample :
  serve get_health live_world = (Sent (health true), live_world) ∧
  health_keys (fst (serve get_health live_world)) = Some ["ok"; "redis"] ∧
  health_keys (fst (serve get_health live_world)) ≠ Some spec_health_keys.
Proof. split; [reflexivity |]. split; [reflexivity | discriminate]. Qed.

(** C9, amended: GET /health never fails: whatever the world, and so
    whatever the liveness flag, it answers 200 with the object
    [{ ok: true, redis: redisReady }], whose second property, named
    [redis], reports the current flag, and leaves the world as it was:
    no suspension, no call to Redis or to a pool. *)
Theorem health_always_ok (w : World) :
  serve get_health w
  = (Sent (mkResponse 200 []
             (Some (HealthBody [("ok", true); ("redis", redisReady w)]))), w).
Proof. reflexivity. Qed.

(** ** The liveness gate *)

(** C1: with [redisReady] false, [cacheGet], [cacheSet] and [cacheDel]
    throw "Redis unavailable" and leave the world untouched (no
    suspension, nothing added to the trace: the Redis client is not
    called); GET /products/:id and PUT /products/:id then answer 503
    "Redis unavailable" for every request, again on an untouched world:
    neither pool is queried. *)
Theorem cache_down_no_io (w : World) (Hdown : redisReady w = false) :
  (∀ key, cacheGet key w = (Throw RedisUnavailable, w)) ∧
  (∀ key value ttl, cacheSet key value ttl w = (Throw RedisUnavailable, w)) ∧
  (∀ key, cacheDel key w = (Throw RedisUnavailable, w)) ∧
  (∀ req, serve (get_product req) w = (Sent unavailable, w)) ∧
  (∀ req, serve (put_product req) w = (Sent unavailable, w)).
Proof.
  repeat split; intros; run_handler; rewrite Hdown; reflexivity.
Qed.

Lemma cache_down_no_io_witness :
  redisReady down_world = false ∧
  serve (get_product (mkRequest "7" None)) down_world = (Sent unavailable, down_world) ∧
  serve (put_product (mkRequest "7" (Some widget2))) down_world
  = (Sent unavailable, down_world).
Proof.
  split; [reflexivity |].
  pose proof (cache_down_no_io down_world eq_refl) as (_ & _ & _ & Hget & Hput).
  split; [apply Hget | apply Hput].
Defined.

(** C10: on both routes the gate comes before the validation of the id
    and of the body: a request whose id or body is invalid is answered
    503 when [redisReady] is false, and 400 when it is true. *)
Theorem gate_before_validation (w : World) (req : Request)
    (Hinvalid : invalid_id req ∨ invalid_body req) :
  (redisReady w = false →
     sent_status (fst (serve (get_product req) w)) = Some 503 ∧
     sent_status (fst (serve (put_product req) w)) = Some 503) ∧
  (redisReady w = true →
     (invalid_id req → sent_status (fst (serve (get_product req) w)) = Some 400) ∧
     sent_status (fst (serve (put_product req) w)) = Some 400).
Proof.
  split; intros Hflag.
  - split; run_handler; rewrite Hflag; reflexivity.
  - split.
    + intros Hid. run_handler. rewrite Hflag. cbn [negb].
      unfold invalid_id in Hid. rewrite Hid. reflexivity.
    + run_handler. rewrite Hflag. cbn [negb].
      destruct (JS.Number_isFinite (JS.parseInt10 (params_id req))) eqn:Hfin;
        cbn [negb]; [| reflexivity].
      destruct Hinvalid as [Hid | [Hname | Hprice]].
      * unfold invalid_id in Hid. congruence.
      * rewrite Hname. reflexivity.
      * rewrite Hprice, orb_true_r. reflexivity.
Qed.

Lemma gate_before_validation_witness :
  let req := mkRequest "abc" None in
  (invalid_id req ∨ invalid_body req) ∧
  sent_status (fst (serve (get_product req) down_world)) = Some 503 ∧
  sent_status (fst (serve (put_product req) down_world)) = Some 503 ∧
  sent_status (fst (serve (get_product req) live_world)) = Some 400.
Proof.
  intros req.
  assert (Hid : invalid_id req) by reflexivity.
  split; [left; exact Hid |].
  destruct (gate_before_validation down_world req (or_introl Hid)) as [Hdown _].
  destruct (gate_before_validation live_world req (or_introl Hid)) as [_ Hlive].
  destruct (Hdown eq_refl) as [Hg Hp].
  destruct (Hlive eq_refl) as [Hg' _].
  split; [exact Hg | split; [exact Hp | exact (Hg' Hid)]].
Defined.

(** ** Validation of the id *)

(** C2, as stated, fails: the id "abc" is answered 503, not 400, when the
    flag is false (the gate is crossed first), and the ids "-5" and "0",
    which are not positive integers, are not rejected: the replica is
    queried for them. *)
Lemma id_validation_counterexample :
  well_formed_positive_key "abc" = false ∧
  serve (get_product (mkRequest "abc" None)) down_world
  = (Sent unavailable, down_world) ∧
  well_formed_positive_key "-5" = false ∧
  fst (serve (get_product (mkRequest "-5" None)) live_world) = Sent not_found ∧
  well_formed_positive_key "0" = false ∧
  trace (snd (serve (get_product (mkRequest "0" None)) live_world))
  = [ReadSelect (JS.Int 0); RedisGET "product:0"].
Proof. vm_compute. repeat split; reflexivity. Qed.

(** C2, amended: GET /products/:id parses the id with parseInt(., 10) and
    rejects it when the result is not a finite number.  When
    [redisReady] is true such an id is answered 400 "Invalid id" on an
    untouched world (no cache or store interaction); when [redisReady]
    is false the gate answers 503 first. *)
Theorem invalid_id_rejected (w : World) (req : Request) (Hid : invalid_id req) :
  (redisReady w = true →
     serve (get_product req) w
     = (Sent (mkResponse 400 [] (Some (ErrorBody "Invalid id"))), w)) ∧
  (redisReady w = false →
     serve (get_product req) w = (Sent unavailable, w)).
Proof.
  unfold invalid_id in Hid.
  split; intros Hflag; run_handler; rewrite Hflag; cbn [negb].
  - rewrite Hid. reflexivity.
  - reflexivity.
Qed.

Lemma invalid_id_rejected_witness :
  invalid_id (mkRequest "  +x12" None) ∧
  serve (get_product (mkRequest "  +x12" None)) live_world
  = (Sent (mkResponse 400 [] (Some (ErrorBody "Invalid id"))), live_world).
Proof.
  assert (Hid : invalid_id (mkRequest "  +x12" None)) by reflexivity.
  split; [exact Hid |].
  exact (proj1 (invalid_id_rejected live_world _ Hid) eq_refl).
Defined.

(** ** GET /products/:id *)

Lemma get_product_hit (w : World) (req : Request) (text : string) (ttl : Z)
    (v : JS.parsed) :
  let id := JS.parseInt10 (params_id req) in
  JS.Number_isFinite id = true →
  redisReady w = true →
  redis_link (suspend w) = true →
  redis_data (suspend w) !! product_key id = Some (text, ttl) →
  JS.JSON_parse text = Some v →
  serve (get_product req) w
  = (Sent (hit v), log (RedisGET (product_key id)) (suspend w)).
Proof.
  intros id Hfin Hready Hlink Hdata Hparse.
  pose proof (JSON_parse_nonempty _ _ Hparse) as Htruthy. subst id.
  exec_with ltac:(rewrite ?Hready, ?Hfin, ?Hlink, ?Hdata, ?Htruthy, ?Hparse).
  reflexivity.
Qed.

(** A read answered MISS leaves the serialised row under the key, on a
    connection that works. *)
Lemma get_product_miss_inv (req : Request) (w : World) (row : Row) :
  fst (serve (get_product req) w) = Sent (miss row) →
  JS.Number_isFinite (JS.parseInt10 (params_id req)) = true ∧
  redis_link (snd (serve (get_product req) w)) = true ∧
  ∃ seconds,
    redis_data (snd (serve (get_product req) w))
      !! product_key (JS.parseInt10 (params_id req))
    = Some (JSON_stringify row, seconds).
Proof.
  all_paths; intros Hsent; try discriminate Hsent.
  injection Hsent as ->. step_world.
  split; [now apply negb_false_iff |]. split; [assumption |].
  eexists. apply lookup_insert_eq.
Qed.

(** A read answered MISS and served again at once, the cache still live,
    is answered HIT with the parse of the text the first one stored. *)
Lemma miss_then_hit (req : Request) (w : World) (row : Row) :
  let w' := snd (serve (get_product req) w) in
  fst (serve (get_product req) w) = Sent (miss row) →
  redisReady w' = true →
  hd [] (pending w') = [] →
  fst (serve (get_product req) w') = Sent (hit (JS.FromText (JSON_stringify row))).
Proof.
  intros w' (Hfin & Hlink & seconds & Hdata)%get_product_miss_inv Hready Hquiet.
  fold w' in Hlink, Hdata.
  rewrite (get_product_hit w' req (JSON_stringify row) seconds
             (JS.FromText (JSON_stringify row))); try assumption.
  - reflexivity.
  - rewrite suspend_quiet by exact Hquiet. exact Hlink.
  - rewrite suspend_quiet by exact Hquiet. exact Hdata.
  - apply JSON_parse_stringify.
Qed.

(** C3: for an id that passes validation, when the cache is live and
    holds a serialised value under the key of the id at the time Redis is
    read, GET /products/:id answers 200, X-Cache: HIT, with the value
    [JSON.parse] returns for that text, and the only call it makes is
    [redis.get]: the replica is not queried.  In particular, after a
    successful [cacheSet] of a value under that key, a request served
    next (liveness still true, nothing happening in between) is a HIT
    whose body is the parse of exactly the text stored; so is a request
    served next to one answered MISS, on the serialisation of the row
    that one stored. *)
Theorem cache_hit_returns_cached (w : World) (req : Request) :
  let id := JS.parseInt10 (params_id req) in
  let key := product_key id in
  JS.Number_isFinite id = true →
  redisReady w = true →
  (∀ text ttl v,
     redis_link (suspend w) = true →
     redis_data (suspend w) !! key = Some (text, ttl) →
     JS.JSON_parse text = Some v →
     serve (get_product req) w = (Sent (hit v), log (RedisGET key) (suspend w)) ∧
     trace (snd (serve (get_product req) w)) = RedisGET key :: trace w) ∧
  (∀ w0 value ttl,
     cacheSet key value ttl w0 = (Ok tt, w) →
     hd [] (pending w) = [] →
     is_Some (JS.JSON_parse value) →
     fst (serve (get_product req) w) = Sent (hit (JS.FromText value))) ∧
  (∀ w0 row,
     serve (get_product req) w0 = (Sent (miss row), w) →
     hd [] (pending w) = [] →
     fst (serve (get_product req) w) = Sent (hit (JS.FromText (JSON_stringify row)))).
Proof.
  intros id key Hfin Hready. split; [| split].
  - intros text ttl v Hlink Hdata Hparse.
    rewrite (get_product_hit w req text ttl v) by assumption.
    split; [reflexivity |]. cbn [snd]. step_world. now rewrite suspend_trace.
  - intros w0 value ttl Hset Hquiet [v Hparse].
    destruct (cacheSet_ok _ _ _ _ _ Hset) as [Hlink [seconds Hdata]].
    rewrite (get_product_hit w req value seconds v); try assumption.
    + cbn [fst]. now rewrite (JSON_parse_text _ _ Hparse).
    + rewrite suspend_quiet by exact Hquiet. exact Hlink.
    + rewrite suspend_quiet by exact Hquiet. exact Hdata.
  - intros w0 row Hmiss Hquiet.
    pose proof (miss_then_hit req w0 row) as Hagain. cbv zeta in Hagain.
    rewrite Hmiss in Hagain. now apply Hagain.
Qed.

Lemma cache_hit_returns_cached_witness :
  let req := mkRequest "7" None in
  let text := JSON_stringify widget in
  JS.Number_isFinite (JS.parseInt10 (params_id req)) = true ∧
  redisReady cached_world = true ∧
  redis_link (suspend cached_world) = true ∧
  redis_data (suspend cached_world) !! "product:7" = Some (text, 60) ∧
  JS.JSON_parse text = Some (JS.FromText text) ∧
  serve (get_product req) cached_world
  = (Sent (hit (JS.FromText text)), log (RedisGET "product:7") cached_world).
Proof.
  intros req text.
  assert (Hdata : redis_data (suspend cached_world) !! "product:7" = Some (text, 60))
    by (vm_compute; reflexivity).
  assert (Hparse : JS.JSON_parse text = Some (JS.FromText text))
    by (vm_compute; reflexivity).
  repeat (split; [first [exact Hdata | exact Hparse | reflexivity] |]).
  exact (proj1 (proj1 (cache_hit_returns_cached cached_world req eq_refl eq_refl)
                      text 60 (JS.FromText text) eq_refl Hdata Hparse)).
Defined.

(** C4, as stated, fails on an id the replica refuses: the id
    "1000000000000000000000" passes the validation of the route (and is
    a well-formed positive integer), it is neither in the cache nor in
    the store, and GET /products/:id does not answer 404: the parameter
    is sent as "1e+21", the query is rejected and with it the handler's
    promise. *)
Lemma absent_id_counterexample :
  let req := mkRequest "1000000000000000000000" None in
  let id := JS.parseInt10 (params_id req) in
  JS.Number_isFinite id = true ∧
  well_formed_positive_key (params_id req) = true ∧
  redis_data live_world !! product_key id = None ∧
  Forall (λ row, JS.Int (row_id row) ≠ id) (db_rows (readPool live_world)) ∧
  pg_text (JS.VNumber id) = Some "1e+21" ∧
  fst (serve (get_product req) live_world) = Rejected PgError.
Proof.
  intros req id.
  split; [reflexivity |]. split; [vm_compute; reflexivity |].
  split; [reflexivity |].
  split; [repeat constructor; vm_compute; discriminate |].
  split; vm_compute; reflexivity.
Qed.

(** C4, amended: for an id that passes validation and whose text the
    replica reads as an integer, when the cache is live and holds
    nothing under the key of the id, and the replica answers and has no
    row with that id, GET /products/:id answers 404 "Not found"; the
    only calls made are [redis.get] and the SELECT (no [redis.set]), and
    the key is still absent from the cache afterwards. *)
Theorem absent_id_not_found (w : World) (req : Request) :
  let id := JS.parseInt10 (params_id req) in
  let key := product_key id in
  let w1 := log (RedisGET key) (suspend w) in
  let w2 := log (ReadSelect id) (suspend w1) in
  JS.Number_isFinite id = true →
  pg_accepts (JS.VNumber id) →
  redisReady w = true →
  redis_link w1 = true →
  redis_data w1 !! key = None →
  db_up (readPool w2) = true →
  (∀ row, row ∈ db_rows (readPool w2) → JS.Int (row_id row) ≠ id) →
  serve (get_product req) w = (Sent not_found, w2) ∧
  trace w2 = ReadSelect id :: RedisGET key :: trace w ∧
  redis_data w2 !! key = None.
Proof.
  intros id key w1 w2 Hfin [k Hk] Hready Hlink Hdata Hup Hnone.
  destruct (parseInt10_finite _ Hfin) as [z Hz].
  subst w2 w1 key id. step_world_in_all.
  assert (Hsel : pg_select_by_id
                   (readPool (suspend (log (RedisGET (product_key (JS.parseInt10 (params_id req))))
                                           (suspend w))))
                   (JS.parseInt10 (params_id req)) = Some []).
  { set (db := readPool _) in *. unfold pg_select_by_id. rewrite Hup, Hk.
    f_equal. apply filter_none. intros row Hin Heq. apply (Hnone row Hin).
    rewrite Hz in Hk. apply pg_int_read in Hk. now rewrite Hz, Heq, Hk. }
  split; [| split].
  - route_with ltac:(rewrite ?Hready, ?Hfin, ?cacheGet_live, ?Hdata,
                       ?queryRead_unfold, ?Hsel by assumption).
    reflexivity.
  - rewrite suspend_trace. step_world. now rewrite suspend_trace.
  - now apply suspend_absent.
Qed.

Lemma absent_id_not_found_witness :
  let req := mkRequest "8" None in
  JS.Number_isFinite (JS.parseInt10 (params_id req)) = true ∧
  pg_int (JS.VNumber (JS.parseInt10 (params_id req))) = Some 8 ∧
  redisReady live_world = true ∧
  serve (get_product req) live_world
  = (Sent not_found,
     log (ReadSelect (JS.Int 8)) (log (RedisGET "product:8") live_world)) ∧
  redis_data (snd (serve (get_product req) live_world)) !! "product:8" = None.
Proof.
  intros req.
  assert (Hnone : ∀ row,
             row ∈ db_rows (readPool (log (ReadSelect (JS.Int 8))
                                        (suspend (log (RedisGET "product:8")
                                                      (suspend live_world))))) →
             JS.Int (row_id row) ≠ JS.parseInt10 (params_id req)).
  { intros row Hin. apply list_elem_of_singleton in Hin. subst row. discriminate. }
  pose proof (absent_id_not_found live_world req eq_refl (ex_intro _ 8 eq_refl)
                eq_refl eq_refl eq_refl eq_refl Hnone) as (Hserve & _ & Hkey).
  split; [reflexivity |]. split; [reflexivity |]. split; [reflexivity |].
  split; [exact Hserve |].
  rewrite Hserve. exact Hkey.
Defined.

(** C5: on a miss (nothing truthy under the key) for which the replica
    returns a row, GET /products/:id calls [cacheSet] with the key, the
    serialised row and the configured TTL; when that call throws, the
    answer is 503 "Redis unavailable" although the row was fetched, and
    only when it returns is the row sent with X-Cache: MISS. *)
Theorem miss_stores_then_answers (w : World) (req : Request)
    (row : Row) (rest : list Row) :
  let id := JS.parseInt10 (params_id req) in
  let key := product_key id in
  let w1 := log (RedisGET key) (suspend w) in
  let w2 := log (ReadSelect id) (suspend w1) in
  JS.Number_isFinite id = true →
  redisReady w = true →
  redis_link w1 = true →
  cached_truthy (fst <$> redis_data w1 !! key) = false →
  pg_select_by_id (readPool w2) id = Some (row :: rest) →
  match cacheSet key (JSON_stringify row) (CACHE_TTL_SECONDS w) w2 with
  | (Ok _, w3) => serve (get_product req) w = (Sent (miss row), w3)
  | (Throw _, w3) => serve (get_product req) w = (Sent unavailable, w3)
  end.
Proof.
  intros id key w1 w2 Hfin Hready Hlink Hfalsy Hsel.
  assert (Httl : CACHE_TTL_SECONDS w2 = CACHE_TTL_SECONDS w).
  { subst w2 w1. unfold CACHE_TTL_SECONDS. step_world.
    rewrite suspend_env. step_world. now rewrite suspend_env. }
  subst w2 w1 key id. step_world_in_all.
  destruct (cacheSet _ _ _ _) as [[[] | e] w3] eqn:Hset.
  - route_with ltac:(rewrite ?Hready, ?Hfin, ?cacheGet_live, ?Hfalsy,
                       ?queryRead_unfold, ?Hsel, ?Httl, ?Hset by assumption).
    reflexivity.
  - route_with ltac:(rewrite ?Hready, ?Hfin, ?cacheGet_live, ?Hfalsy,
                       ?queryRead_unfold, ?Hsel, ?Httl, ?Hset by assumption).
    reflexivity.
Qed.

Lemma miss_stores_then_answers_witness :
  let req := mkRequest "7" None in
  JS.Number_isFinite (JS.parseInt10 (params_id req)) = true ∧
  redisReady live_world = true ∧ redisReady flaky_world = true ∧
  fst (serve (get_product req) live_world) = Sent (miss widget) ∧
  fst (serve (get_product req) flaky_world) = Sent unavailable.
Proof.
  intros req.
  pose proof (miss_stores_then_answers live_world req widget []
                eq_refl eq_refl eq_refl eq_refl eq_refl) as Hlive.
  pose proof (miss_stores_then_answers flaky_world req widget []
                eq_refl eq_refl eq_refl eq_refl eq_refl) as Hflaky.
  vm_compute in Hlive. vm_compute in Hflaky.
  split; [reflexivity |]. split; [reflexivity |]. split; [reflexivity |].
  split; [exact (f_equal fst Hlive) | exact (f_equal fst Hflaky)].
Defined.

(** ** PUT /products/:id *)

(** C6, as stated, fails on a request the primary refuses: with the id
    "1000000000000000000000", with the id "8" and the price 1e21, or
    with the id "8" and a NUL character in the name, the request passes
    validation and the primary has no row with the id, yet
    PUT /products/:id does not answer 404: the id or the price is sent
    as "1e+21", or the name with its NUL, the UPDATE is rejected and
    with it the handler's promise. *)
Lemma update_absent_counterexample :
  let by_id := mkRequest "1000000000000000000000" (Some widget2) in
  let by_price := mkRequest "8" (Some costly) in
  let by_name := mkRequest "8" (Some unnamed) in
  valid_update by_id ∧ valid_update by_price ∧ valid_update by_name ∧
  Forall (λ row, JS.Int (row_id row) ≠ JS.parseInt10 (params_id by_id) ∧
                 JS.Int (row_id row) ≠ JS.parseInt10 (params_id by_price))
         (db_rows (writePool live_world)) ∧
  pg_text (body_field by_price "price_cents") = Some "1e+21" ∧
  fst (serve (put_product by_id) live_world) = Rejected PgError ∧
  fst (serve (put_product by_price) live_world) = Rejected PgError ∧
  fst (serve (put_product by_name) live_world) = Rejected PgError.
Proof.
  intros by_id by_price by_name.
  split; [split; [| split]; vm_compute; reflexivity |].
  split; [split; [| split]; vm_compute; reflexivity |].
  split; [split; [| split]; vm_compute; reflexivity |].
  split; [repeat constructor; vm_compute; discriminate |].
  split; [vm_compute; reflexivity |].
  split; [| split]; vm_compute; reflexivity.
Qed.

(** C6, amended: for a request that passes validation, whose id and
    price the primary reads as integers and whose name it takes as a
    text, when the cache is live and the primary answers and has no row
    with the id, PUT /products/:id answers 404 "Not found"; the only
    call made is the UPDATE (no [redis.del]), and the primary is as it
    was. *)
Theorem update_absent_not_found (w : World) (req : Request) :
  let id := JS.parseInt10 (params_id req) in
  let name := body_field req "name" in
  let price_cents := body_field req "price_cents" in
  let w1 := log (WriteUpdate name price_cents id) (suspend w) in
  valid_update req →
  pg_accepts (JS.VNumber id) →
  pg_accepts_text name →
  pg_accepts price_cents →
  redisReady w = true →
  db_up (writePool w) = true →
  (∀ row, row ∈ db_rows (writePool w) → JS.Int (row_id row) ≠ id) →
  serve (put_product req) w = (Sent not_found, w1) ∧
  trace w1 = WriteUpdate name price_cents id :: trace w ∧
  writePool w1 = writePool w.
Proof.
  intros id name price_cents w1 (Hfin & Hname & Hprice) [k Hk] [text Htext]
    [p Hp] Hready Hup Hnone.
  destruct (parseInt10_finite _ Hfin) as [z Hz].
  assert (Hupd : pg_update (writePool w) name price_cents id = (Some [], writePool w)).
  { apply (pg_update_absent _ _ _ _ text p k); try assumption.
    intros row Hin Heq. apply (Hnone row Hin). subst id.
    rewrite Hz in Hk. apply pg_int_read in Hk. now rewrite Hz, Heq, Hk. }
  assert (Heta : set_writePool (writePool w) w1 = w1).
  { subst w1. step_world. rewrite <- (suspend_writePool w).
    now destruct (suspend w). }
  subst w1 price_cents name id. split; [| split].
  - route_with ltac:(rewrite ?Hready, ?Hfin, ?Hname, ?Hprice,
                       ?writePool_update_unfold, ?Hupd, ?Heta).
    reflexivity.
  - step_world. now rewrite suspend_trace.
  - step_world. apply suspend_writePool.
Qed.

Lemma update_absent_not_found_witness :
  let req := mkRequest "8" (Some widget2) in
  valid_update req ∧
  pg_int (JS.VNumber (JS.parseInt10 (params_id req))) = Some 8 ∧
  pg_string (body_field req "name") = Some "Widget2" ∧
  pg_int (body_field req "price_cents") = Some 1099 ∧
  redisReady live_world = true ∧
  db_up (writePool live_world) = true ∧
  serve (put_product req) live_world
  = (Sent not_found,
     log (WriteUpdate (JS.VString "Widget2") (JS.VNumber (JS.Int 1099)) (JS.Int 8))
         live_world).
Proof.
  intros req.
  assert (Hvalid : valid_update req) by (repeat split; vm_compute; reflexivity).
  assert (Hnone : ∀ row, row ∈ db_rows (writePool live_world) →
                         JS.Int (row_id row) ≠ JS.parseInt10 (params_id req)).
  { intros row Hin. apply list_elem_of_singleton in Hin. subst row. discriminate. }
  split; [exact Hvalid |]. split; [reflexivity |]. split; [reflexivity |].
  split; [reflexivity |]. split; [reflexivity |]. split; [reflexivity |].
  exact (proj1 (update_absent_not_found live_world req Hvalid
                  (ex_intro _ 8 eq_refl) (ex_intro _ "Widget2" eq_refl)
                  (ex_intro _ 1099 eq_refl) eq_refl eq_refl Hnone)).
Defined.

(** C7: for a request that passes validation on a live cache, when the
    UPDATE on the primary returns a row and [cacheDel] then throws,
    PUT /products/:id answers 503 "Redis unavailable" and the primary is
    left as the UPDATE made it: the returned row is in it, and every row
    with the id carries the new name and price and the time of the
    statement. *)
Theorem failed_invalidation_keeps_write (w w2 : World) (req : Request)
    (row : Row) (rest : list Row) (db' : Db) (e : Error) :
  let id := JS.parseInt10 (params_id req) in
  let name := body_field req "name" in
  let price_cents := body_field req "price_cents" in
  let w1 := set_writePool db' (log (WriteUpdate name price_cents id) (suspend w)) in
  valid_update req →
  redisReady w = true →
  pg_update (writePool w) name price_cents id = (Some (row :: rest), db') →
  cacheDel (product_key id) w1 = (Throw e, w2) →
  serve (put_product req) w = (Sent unavailable, w2) ∧
  writePool w2 = db' ∧
  row ∈ db_rows (writePool w2) ∧
  (∀ r, r ∈ db_rows (writePool w2) → JS.Int (row_id r) = id →
        pg_text name = Some (row_name r) ∧
        price_cents = JS.VNumber (JS.Int (row_price_cents r)) ∧
        row_updated_at r = db_now (writePool w)).
Proof.
  intros id name price_cents w1 (Hfin & Hname & Hprice) Hready Hupd Hdel.
  assert (Hdb : writePool w2 = db').
  { rewrite (cacheDel_writePool _ _ _ _ Hdel). reflexivity. }
  destruct (pg_update_ok _ _ _ _ _ _ Hprice Hupd) as [Hret Hattrs].
  subst w1 price_cents name id. split; [| split; [exact Hdb | split]].
  - route_with ltac:(rewrite ?Hready, ?Hfin, ?Hname, ?Hprice,
                       ?writePool_update_unfold, ?Hupd, ?Hdel).
    reflexivity.
  - rewrite Hdb. apply Hret. left.
  - rewrite Hdb. exact Hattrs.
Qed.

Lemma failed_invalidation_keeps_write_witness :
  let req := mkRequest "7" (Some widget2) in
  let updated := mkRow 7 "Widget2" 1099 "2024-01-02T00:00:00.000Z" in
  valid_update req ∧
  redisReady closing_world = true ∧
  fst (serve (put_product req) closing_world) = Sent unavailable ∧
  db_rows (writePool (snd (serve (put_product req) closing_world))) = [updated].
Proof.
  intros req updated.
  assert (Hvalid : valid_update req) by (repeat split; vm_compute; reflexivity).
  pose (db' := mkDb true [updated] "2024-01-02T00:00:00.000Z").
  pose (w2 := set_writePool db'
                (log (WriteUpdate (JS.VString "Widget2") (JS.VNumber (JS.Int 1099))
                                  (JS.Int 7))
                     (set_redisReady false live_world))).
  assert (Hupd : pg_update (writePool closing_world) (body_field req "name")
                   (body_field req "price_cents") (JS.parseInt10 (params_id req))
                 = (Some [updated], db')) by (vm_compute; reflexivity).
  assert (Hdel : cacheDel (product_key (JS.parseInt10 (params_id req)))
                   (set_writePool db'
                      (log (WriteUpdate (body_field req "name")
                                        (body_field req "price_cents")
                                        (JS.parseInt10 (params_id req)))
                           (suspend closing_world)))
                 = (Throw RedisUnavailable, w2)) by (vm_compute; reflexivity).
  pose proof (failed_invalidation_keeps_write closing_world w2 req updated [] db'
                RedisUnavailable Hvalid eq_refl Hupd Hdel) as (Hserve & Hdb & _).
  split; [exact Hvalid |]. split; [reflexivity |].
  rewrite Hserve. split; [reflexivity |].
  cbn [snd]. rewrite Hdb. reflexivity.
Defined.

(** ** The cache key *)

(** C8, as stated, fails on the prefix: the key of the entity with id 7
    is "product:7", as the external-interface section says, and not
    "entity:7": GET /products/7 reads and writes "product:7" and
    PUT /products/7 deletes "product:7". *)
Lemma cache_key_counterexample :
  product_key (JS.parseInt10 "7") = "product:7" ∧
  product_key (JS.parseInt10 "7") ≠ "entity:7" ∧
  trace (snd (serve (get_product (mkRequest "7" None)) live_world))
  = [RedisSET "product:7" (JSON_stringify widget) (JS.Int 60);
     ReadSelect (JS.Int 7); RedisGET "product:7"] ∧
  trace (snd (serve (put_product (mkRequest "7" (Some widget2))) live_world))
  = [RedisDEL "product:7";
     WriteUpdate (JS.VString "Widget2") (JS.VNumber (JS.Int 1099)) (JS.Int 7)].
Proof.
  split; [reflexivity |]. split; [discriminate |].
  split; vm_compute; reflexivity.
Qed.

Lemma get_product_calls (req : Request) (w : World) :
  ∃ calls,
    trace (snd (serve (get_product req) w)) = (calls ++ trace w)%list ∧
    Forall (on_key (product_key (JS.parseInt10 (params_id req)))) calls.
Proof. all_paths; trace_simpl; new_calls. Qed.

Lemma put_product_calls (req : Request) (w : World) :
  ∃ calls,
    trace (snd (serve (put_product req) w)) = (calls ++ trace w)%list ∧
    Forall (on_key (product_key (JS.parseInt10 (params_id req)))) calls.
Proof. all_paths; trace_simpl; new_calls. Qed.

Lemma get_product_miss_stores (req : Request) (w : World) (row : Row) :
  fst (serve (get_product req) w) = Sent (miss row) →
  ∃ ttl, RedisSET (product_key (JS.parseInt10 (params_id req)))
                  (JSON_stringify row) ttl
         ∈ trace (snd (serve (get_product req) w)).
Proof.
  all_paths; intros Hsent; try discriminate Hsent.
  injection Hsent as ->. eexists. step_world. left.
Qed.

Lemma put_product_ok_deletes (req : Request) (w : World) (row : Row) :
  fst (serve (put_product req) w) = Sent (updated row) →
  RedisDEL (product_key (JS.parseInt10 (params_id req)))
  ∈ trace (snd (serve (put_product req) w)).
Proof.
  all_paths; intros Hsent; try discriminate Hsent.
  step_world. left.
Qed.

(** Different ids have different keys. *)
Lemma product_key_inj (a b : Z) :
  - 2 ^ 53 < a < 2 ^ 53 → - 2 ^ 53 < b < 2 ^ 53 →
  product_key (JS.Int a) = product_key (JS.Int b) → a = b.
Proof.
  intros Ha Hb Hkey. unfold product_key in Hkey.
  apply String.app_inj in Hkey.
  apply (f_equal JS.parseInt10) in Hkey.
  rewrite !parseInt10_toString in Hkey by assumption.
  now injection Hkey.
Qed.

(** C8, amended: the cache key of the entity with id [id] is the text
    "product:" followed by the id as JavaScript prints the parsed number
    (its decimal digits for an id from 0 up to 2^53); every call either
    route makes to the Redis client for a request is on that key, so the
    [redis.set] of a read answered MISS and the [redis.del] of a write
    answered 200 are on the same key for the same id. *)
Theorem cache_key_shared (req : Request) (w : World) :
  let id := JS.parseInt10 (params_id req) in
  let key := "product:" +:+ JS.Number_toString id in
  (∃ calls, trace (snd (serve (get_product req) w)) = (calls ++ trace w)%list ∧
            Forall (on_key key) calls) ∧
  (∃ calls, trace (snd (serve (put_product req) w)) = (calls ++ trace w)%list ∧
            Forall (on_key key) calls) ∧
  (∀ row, fst (serve (get_product req) w) = Sent (miss row) →
          ∃ ttl, RedisSET key (JSON_stringify row) ttl
                 ∈ trace (snd (serve (get_product req) w))) ∧
  (∀ row, fst (serve (put_product req) w) = Sent (updated row) →
          RedisDEL key ∈ trace (snd (serve (put_product req) w))) ∧
  (∀ z, id = JS.Int z → 0 <= z < 2 ^ 53 → key = "product:" +:+ JS.decimal z).
Proof.
  intros id key. repeat split.
  - apply get_product_calls.
  - apply put_product_calls.
  - apply get_product_miss_stores.
  - apply put_product_ok_deletes.
  - intros z Hz Hrange. subst key. rewrite Hz.
    now rewrite Number_toString_decimal.
Qed.

(** * Further properties of the routes *)

(** ** GET /products/:id, path by path *)

(** A miss that succeeds: on a live cache with nothing truthy under the
    key, when the replica returns a row, the flag is still up after the
    query, Redis is reached and takes the configured TTL, the row is sent
    with X-Cache: MISS and the cache then holds its serialisation under
    the key with that TTL. *)
Theorem miss_repopulates (w : World) (req : Request) (row : Row)
    (rest : list Row) (seconds : Z) :
  let id := JS.parseInt10 (params_id req) in
  let key := product_key id in
  let w1 := log (RedisGET key) (suspend w) in
  let w2 := log (ReadSelect id) (suspend w1) in
  let w3 := log (RedisSET key (JSON_stringify row) (CACHE_TTL_SECONDS w)) (suspend w2) in
  JS.Number_isFinite id = true →
  redisReady w = true →
  redis_link w1 = true →
  cached_truthy (fst <$> redis_data w1 !! key) = false →
  pg_select_by_id (readPool w2) id = Some (row :: rest) →
  redisReady w2 = true →
  redis_link w3 = true →
  redis_accepts_ttl (CACHE_TTL_SECONDS w) = Some seconds →
  serve (get_product req) w
  = (Sent (miss row),
     set_redis_data (<[key := (JSON_stringify row, seconds)]> (redis_data w3)) w3) ∧
  redis_data (snd (serve (get_product req) w)) !! key
  = Some (JSON_stringify row, seconds).
Proof.
  intros id key w1 w2 w3 Hfin Hready Hlink Hfalsy Hsel Hready2 Hlink3 Httl.
  assert (Hcfg : CACHE_TTL_SECONDS w2 = CACHE_TTL_SECONDS w).
  { subst w2 w1. unfold CACHE_TTL_SECONDS. step_world.
    rewrite suspend_env. step_world. now rewrite suspend_env. }
  assert (Hserve : serve (get_product req) w
                   = (Sent (miss row),
                      set_redis_data (<[key := (JSON_stringify row, seconds)]>
                                        (redis_data w3)) w3)).
  { subst w3 w2 w1 key id. step_world_in_all.
    route_with ltac:(rewrite ?Hready, ?Hfin, ?cacheGet_live, ?Hfalsy,
                       ?queryRead_unfold, ?Hsel, ?Hcfg, ?cacheSet_unfold
                       by assumption).
    cbv zeta. step_world. rewrite Hready2, Hlink3, Httl.
    route_with idtac. reflexivity. }
  split; [exact Hserve |].
  rewrite Hserve. cbn [snd]. step_world. apply lookup_insert_eq.
Qed.

Lemma miss_repopulates_witness :
  let req := mkRequest "7" None in
  serve (get_product req) live_world
  = (Sent (miss widget),
     set_redis_data {[ "product:7" := (JSON_stringify widget, 60) ]}
       (log (RedisSET "product:7" (JSON_stringify widget) (JS.Int 60))
          (log (ReadSelect (JS.Int 7)) (log (RedisGET "product:7") live_world)))).
Proof.
  intros req.
  exact (proj1 (miss_repopulates live_world req widget [] 60
                  eq_refl eq_refl eq_refl eq_refl eq_refl eq_refl eq_refl eq_refl)).
Defined.

(** An entry that is not JSON: when the cache is live and holds under the
    key a non-empty text that [JSON.parse] rejects, the answer is 503
    "Redis unavailable", sent with the X-Cache: HIT header already set,
    and the replica is not queried. *)
Theorem corrupt_entry_unavailable (w : World) (req : Request)
    (text : string) (ttl : Z) :
  let id := JS.parseInt10 (params_id req) in
  let key := product_key id in
  JS.Number_isFinite id = true →
  redisReady w = true →
  redis_link (suspend w) = true →
  redis_data (suspend w) !! key = Some (text, ttl) →
  text ≠ "" →
  JS.JSON_parse text = None →
  serve (get_product req) w
  = (Sent unavailable_after_hit, log (RedisGET key) (suspend w)).
Proof.
  intros id key Hfin Hready Hlink Hdata Hne Hparse. subst key id.
  assert (Htruthy : JS.truthy (JS.VString text) = true)
    by (destruct text; [congruence | reflexivity]).
  route_with ltac:(rewrite ?Hready, ?Hfin, ?cacheGet_live, ?Hdata, ?Htruthy,
                     ?Hparse by assumption).
  reflexivity.
Qed.

Lemma corrupt_entry_unavailable_witness :
  serve (get_product (mkRequest "7" None)) corrupt_world
  = (Sent unavailable_after_hit, log (RedisGET "product:7") corrupt_world).
Proof.
  assert (Hdata : redis_data (suspend corrupt_world) !! "product:7" = Some ("Widget", 60))
    by (vm_compute; reflexivity).
  exact (corrupt_entry_unavailable corrupt_world (mkRequest "7" None) "Widget" 60
           eq_refl eq_refl eq_refl Hdata ltac:(discriminate) eq_refl).
Defined.

(** A failing [redis.get]: when the flag is up but the command does not
    reach Redis, the answer is 503 and the replica is not queried. *)
Theorem get_failure_unavailable (w : World) (req : Request) :
  let id := JS.parseInt10 (params_id req) in
  JS.Number_isFinite id = true →
  redisReady w = true →
  redis_link (suspend w) = false →
  serve (get_product req) w
  = (Sent unavailable, log (RedisGET (product_key id)) (suspend w)).
Proof.
  intros id Hfin Hready Hlink. subst id.
  route_with ltac:(rewrite ?Hready, ?Hfin, ?cacheGet_unfold).
  cbv zeta. step_world. rewrite Hlink. route_with idtac. reflexivity.
Qed.

Lemma get_failure_unavailable_witness :
  serve (get_product (mkRequest "7" None)) cut_world
  = (Sent unavailable,
     log (RedisGET "product:7") (set_redis_link false live_world)).
Proof.
  exact (get_failure_unavailable cut_world (mkRequest "7" None)
           eq_refl eq_refl eq_refl).
Defined.



(** Events only remove cache entries. *)
Lemma suspend_subseteq (w : World) : redis_data (suspend w) ⊆ redis_data w.
Proof.
  assert (Hbatch : ∀ batch w', redis_data (foldl apply_event w' batch) ⊆ redis_data w').
  { induction batch as [| e batch IH]; intros w'; simpl; [reflexivity |].
    etrans; [apply IH |]. destruct e; simpl; try reflexivity.
    apply delete_subseteq. }
  unfold suspend. destruct (pending w) as [| batch rest]; [reflexivity |].
  etrans; [apply Hbatch | reflexivity].
Qed.

Lemma suspend_idle (w : World) : pending w = [] → suspend w = w.
Proof. unfold suspend. now intros ->. Qed.

(** GET /products/:id never writes to the primary: whatever the request,
    the world and the events, the primary is after the request what it
    was before. *)
Theorem read_leaves_primary (req : Request) (w : World) :
  writePool (snd (serve (get_product req) w)) = writePool w.
Proof.
  all_paths; repeat (step_world; rewrite ?suspend_writePool); reflexivity.
Qed.

(** A TTL Redis refuses: when CACHE_TTL_SECONDS is not a positive integer
    (0, negative, or not a number), a miss that finds its row is answered
    503 "Redis unavailable" although both stores answered, and the cache
    gains no entry. *)
Theorem refused_ttl_unavailable (w : World) (req : Request) (row : Row)
    (rest : list Row) :
  let id := JS.parseInt10 (params_id req) in
  let key := product_key id in
  let w1 := log (RedisGET key) (suspend w) in
  let w2 := log (ReadSelect id) (suspend w1) in
  JS.Number_isFinite id = true →
  redisReady w = true →
  redis_link w1 = true →
  cached_truthy (fst <$> redis_data w1 !! key) = false →
  pg_select_by_id (readPool w2) id = Some (row :: rest) →
  redis_accepts_ttl (CACHE_TTL_SECONDS w) = None →
  fst (serve (get_product req) w) = Sent unavailable ∧
  redis_data (snd (serve (get_product req) w)) ⊆ redis_data w.
Proof.
  intros id key w1 w2 Hfin Hready Hlink Hfalsy Hsel Httl.
  assert (Hcfg : CACHE_TTL_SECONDS w2 = CACHE_TTL_SECONDS w).
  { subst w2 w1. unfold CACHE_TTL_SECONDS. step_world.
    rewrite suspend_env. step_world. now rewrite suspend_env. }
  subst w2 w1 key id. step_world_in_all.
  route_with ltac:(rewrite ?Hready, ?Hfin, ?cacheGet_live, ?Hfalsy,
                     ?queryRead_unfold, ?Hsel, ?Hcfg, ?cacheSet_unfold
                     by assumption).
  cbv zeta. step_world. rewrite Httl.
  destruct (redisReady (suspend (log _ _)));
    [destruct (redis_link (suspend (log _ (suspend (log _ _))))) |];
    route_with idtac; (split; [reflexivity |]);
    repeat (step_world; first [reflexivity | etrans; [apply suspend_subseteq |]]).
Qed.

Lemma refused_ttl_unavailable_witness :
  CACHE_TTL_SECONDS zero_ttl_world = JS.Int 0 ∧
  fst (serve (get_product (mkRequest "7" None)) zero_ttl_world) = Sent unavailable.
Proof.
  split; [reflexivity |].
  exact (proj1 (refused_ttl_unavailable zero_ttl_world (mkRequest "7" None) widget []
                  eq_refl eq_refl eq_refl eq_refl eq_refl eq_refl)).
Defined.

(** ** PUT /products/:id, path by path *)

(** An update that succeeds: for a valid request on a live cache, when
    the UPDATE returns a row and the DEL reaches Redis, the answer is 200
    with the first row returned, the primary is as the UPDATE left it and
    the key of the id is absent from the cache. *)
Theorem update_invalidates (w : World) (req : Request) (row : Row)
    (rest : list Row) (db' : Db) :
  let id := JS.parseInt10 (params_id req) in
  let name := body_field req "name" in
  let price_cents := body_field req "price_cents" in
  let key := product_key id in
  let w1 := set_writePool db' (log (WriteUpdate name price_cents id) (suspend w)) in
  let w2 := log (RedisDEL key) (suspend w1) in
  valid_update req →
  redisReady w = true →
  pg_update (writePool w) name price_cents id = (Some (row :: rest), db') →
  redisReady w1 = true →
  redis_link w2 = true →
  serve (put_product req) w
  = (Sent (updated row), set_redis_data (delete key (redis_data w2)) w2) ∧
  redis_data (snd (serve (put_product req) w)) !! key = None ∧
  writePool (snd (serve (put_product req) w)) = db'.
Proof.
  intros id name price_cents key w1 w2 (Hfin & Hname & Hprice) Hready Hupd
    Hready1 Hlink2.
  assert (Hserve : serve (put_product req) w
                   = (Sent (updated row),
                      set_redis_data (delete key (redis_data w2)) w2)).
  { subst w2 w1 key price_cents name id. step_world_in_all.
    route_with ltac:(rewrite ?Hready, ?Hfin, ?Hname, ?Hprice,
                       ?writePool_update_unfold, ?Hupd, ?cacheDel_unfold).
    cbv zeta. step_world. rewrite Hready1, Hlink2.
    route_with idtac. reflexivity. }
  split; [exact Hserve |]. rewrite Hserve. cbn [snd]. step_world. split.
  - apply lookup_delete_eq.
  - subst w2 w1. step_world. now rewrite suspend_writePool.
Qed.

Lemma update_invalidates_witness :
  let req := mkRequest "7" (Some widget2) in
  let row := mkRow 7 "Widget2" 1099 "2024-01-02T00:00:00.000Z" in
  fst (serve (put_product req) cached_world) = Sent (updated row) ∧
  redis_data (snd (serve (put_product req) cached_world)) !! "product:7" = None.
Proof.
  intros req row.
  assert (Hvalid : valid_update req)
    by (split; [| split]; vm_compute; reflexivity).
  pose (db' := mkDb true [row] "2024-01-02T00:00:00.000Z").
  assert (Hupd : pg_update (writePool cached_world) (body_field req "name")
                   (body_field req "price_cents") (JS.parseInt10 (params_id req))
                 = (Some [row], db')) by (vm_compute; reflexivity).
  pose proof (update_invalidates cached_world req row [] db' Hvalid eq_refl Hupd
                eq_refl eq_refl) as (Hserve & Hkey & _).
  split; [now rewrite Hserve | exact Hkey].
Defined.

(** An invalid request changes nothing: with the cache live, an id that
    is not a finite number is answered 400 "Invalid id", and with a
    finite id a body without a truthy name or an integer price is
    answered 400 "Expected { name, price_cents:int }"; in both cases
    before any call to the primary or to Redis. *)
Theorem invalid_update_untouched (w : World) (req : Request) :
  redisReady w = true →
  (invalid_id req → serve (put_product req) w = (Sent bad_id, w)) ∧
  (¬ invalid_id req → invalid_body req →
     serve (put_product req) w = (Sent bad_body, w)).
Proof.
  intros Hready. unfold invalid_id, invalid_body. split.
  - intros Hid. route_with ltac:(rewrite ?Hready, ?Hid). reflexivity.
  - intros Hid%not_false_is_true [Hname | Hprice];
      route_with ltac:(rewrite ?Hready, ?Hid, ?Hname, ?Hprice);
      [| rewrite orb_true_r]; reflexivity.
Qed.

Lemma invalid_update_untouched_witness :
  serve (put_product (mkRequest "abc" (Some widget2))) live_world
  = (Sent bad_id, live_world) ∧
  serve (put_product (mkRequest "7" None)) live_world
  = (Sent bad_body, live_world).
Proof.
  pose proof (invalid_update_untouched live_world (mkRequest "abc" (Some widget2))
                eq_refl) as [Hid _].
  pose proof (invalid_update_untouched live_world (mkRequest "7" None)
                eq_refl) as [_ Hbody].
  split; [apply Hid; reflexivity |].
  apply Hbody; [discriminate | left; reflexivity].
Defined.

(** A failing primary: for a valid request on a live cache, when the
    UPDATE is rejected, the handler's promise rejects with the pool's
    error and [redis.del] is not called: the cache keeps its entries,
    apart from what the events remove. *)
Theorem primary_failure_rejects (w : World) (req : Request) (db' : Db) :
  let id := JS.parseInt10 (params_id req) in
  let name := body_field req "name" in
  let price_cents := body_field req "price_cents" in
  valid_update req →
  redisReady w = true →
  pg_update (writePool w) name price_cents id = (None, db') →
  serve (put_product req) w
  = (Rejected PgError, log (WriteUpdate name price_cents id) (suspend w)) ∧
  writePool (snd (serve (put_product req) w)) = writePool w.
Proof.
  intros id name price_cents (Hfin & Hname & Hprice) Hready Hupd.
  subst price_cents name id.
  assert (Hserve : serve (put_product req) w
                   = (Rejected PgError,
                      log (WriteUpdate (body_field req "name")
                             (body_field req "price_cents")
                             (JS.parseInt10 (params_id req))) (suspend w))).
  { route_with ltac:(rewrite ?Hready, ?Hfin, ?Hname, ?Hprice,
                       ?writePool_update_unfold, ?Hupd).
    reflexivity. }
  split; [exact Hserve |]. rewrite Hserve. cbn [snd]. step_world.
  apply suspend_writePool.
Qed.

Lemma primary_failure_rejects_witness :
  let req := mkRequest "7" (Some widget2) in
  serve (put_product req) primary_down_world
  = (Rejected PgError,
     log (WriteUpdate (JS.VString "Widget2") (JS.VNumber (JS.Int 1099)) (JS.Int 7))
       primary_down_world).
Proof.
  intros req.
  assert (Hvalid : valid_update req)
    by (split; [| split]; vm_compute; reflexivity).
  assert (Hupd : pg_update (writePool primary_down_world) (body_field req "name")
                   (body_field req "price_cents") (JS.parseInt10 (params_id req))
                 = (None, writePool primary_down_world)) by (vm_compute; reflexivity).
  exact (proj1 (primary_failure_rejects primary_down_world req _ Hvalid eq_refl Hupd)).
Defined.

(** PUT /products/:id never adds to the cache: whatever the request, the
    world and the events, every entry the cache holds after the request
    it held before. *)
Theorem update_never_caches (req : Request) (w : World) :
  redis_data (snd (serve (put_product req) w)) ⊆ redis_data w.
Proof.
  all_paths;
    repeat (step_world;
            first [ reflexivity
                  | etrans; [apply delete_subseteq |]
                  | etrans; [apply suspend_subseteq |] ]).
Qed.

(** ** Other keys *)

(** With no event scheduled, a request on one id leaves the entries of
    every other key as they are: a GET writes only under the key of its
    id, a PUT deletes only that key. *)
Theorem other_keys_untouched (req : Request) (w : World) (k : string) :
  pending w = [] →
  k ≠ product_key (JS.parseInt10 (params_id req)) →
  redis_data (snd (serve (get_product req) w)) !! k = redis_data w !! k ∧
  redis_data (snd (serve (put_product req) w)) !! k = redis_data w !! k.
Proof.
  intros Hidle Hk. split; all_paths;
    repeat (step_world;
            first [ reflexivity
                  | rewrite lookup_insert_ne by (symmetry; exact Hk)
                  | rewrite lookup_delete_ne by (symmetry; exact Hk)
                  | match goal with
                    | |- context [suspend ?x] =>
                        rewrite (suspend_idle x) by (step_world; assumption)
                    end ]).
Qed.

Lemma other_keys_untouched_witness :
  let req := mkRequest "8" (Some widget2) in
  redis_data (snd (serve (get_product req) cached_world)) !! "product:7"
  = Some (JSON_stringify widget, 60) ∧
  redis_data (snd (serve (put_product req) cached_world)) !! "product:7"
  = Some (JSON_stringify widget, 60).
Proof.
  intros req.
  pose proof (other_keys_untouched req cached_world "product:7" eq_refl
                ltac:(vm_compute; discriminate)) as [Hget Hput].
  split; [rewrite Hget | rewrite Hput]; reflexivity.
Defined.

(** ** A write followed by a read *)

(** A valid PUT on a live cache with nothing scheduled *)
Lemma put_product_idle (w : World) (req : Request) (row : Row)
    (rest : list Row) (db' : Db) :
  let id := JS.parseInt10 (params_id req) in
  let name := body_field req "name" in
  let price_cents := body_field req "price_cents" in
  let key := product_key id in
  pending w = [] → redisReady w = true → redis_link w = true →
  valid_update req →
  pg_update (writePool w) name price_cents id = (Some (row :: rest), db') →
  serve (put_product req) w
  = (Sent (updated row),
     set_redis_data (delete key (redis_data w))
       (log (RedisDEL key)
          (set_writePool db' (log (WriteUpdate name price_cents id) w)))).
Proof.
  intros id name price_cents key Hidle Hready Hlink (Hfin & Hname & Hprice) Hupd.
  subst key price_cents name id.
  route_with ltac:(rewrite ?Hready, ?Hfin, ?Hname, ?Hprice,
                     ?writePool_update_unfold, ?Hupd, ?cacheDel_unfold).
  cbv zeta. rewrite (suspend_idle w Hidle). step_world.
  rewrite suspend_idle by (step_world; exact Hidle). step_world.
  rewrite Hready, Hlink. route_with idtac. reflexivity.
Qed.

(** A GET that misses on a live cache with nothing scheduled *)
Lemma get_product_idle (w : World) (req : Request) (row : Row)
    (rest : list Row) (seconds : Z) :
  let id := JS.parseInt10 (params_id req) in
  let key := product_key id in
  pending w = [] → redisReady w = true → redis_link w = true →
  JS.Number_isFinite id = true →
  redis_data w !! key = None →
  pg_select_by_id (readPool w) id = Some (row :: rest) →
  redis_accepts_ttl (CACHE_TTL_SECONDS w) = Some seconds →
  serve (get_product req) w
  = (Sent (miss row),
     set_redis_data (<[key := (JSON_stringify row, seconds)]> (redis_data w))
       (log (RedisSET key (JSON_stringify row) (CACHE_TTL_SECONDS w))
          (log (ReadSelect id) (log (RedisGET key) w)))).
Proof.
  intros id key Hidle Hready Hlink Hfin Hdata Hsel Httl. subst key id.
  route_with ltac:(rewrite ?Hready, ?Hfin, ?cacheGet_unfold). cbv zeta.
  rewrite (suspend_idle w Hidle). step_world. rewrite Hlink, Hdata.
  route_with ltac:(rewrite ?queryRead_unfold).
  rewrite suspend_idle by (step_world; exact Hidle). step_world. rewrite Hsel.
  route_with ltac:(rewrite ?cacheSet_unfold). cbv zeta. step_world.
  rewrite suspend_idle by (step_world; exact Hidle). step_world.
  change (CACHE_TTL_SECONDS (log _ (log _ w))) with (CACHE_TTL_SECONDS w).
  rewrite Hready, Hlink, Httl. route_with idtac. reflexivity.
Qed.

(** The rows a replica that has replayed the primary returns for the id
    are the rows the UPDATE returned. *)
Lemma pg_select_after_update (db db' : Db) (name price : JS.value)
    (id : JS.number) (rows : list Row) (now : string) :
  pg_update db name price id = (Some rows, db') →
  pg_select_by_id (mkDb true (db_rows db') now) id = Some rows.
Proof.
  unfold pg_update, pg_select_by_id. destruct (db_up db); [| discriminate].
  destruct (pg_string name) as [text |]; [| discriminate].
  destruct (pg_int price) as [p |]; [| discriminate].
  destruct (pg_int (JS.VNumber id)) as [z |]; [| discriminate].
  intros [= <- <-]. reflexivity.
Qed.

(** Read after write, replica lagging: after a successful PUT, with the
    cache live and nothing scheduled, a GET of the same id is a MISS
    answered with the row of the replica, not with the row the PUT
    returned; that row is cached under the key, and the GET after it is
    a HIT on that text. *)
Theorem stale_read_after_update (w : World) (req : Request) (row old : Row)
    (rest rest' : list Row) (db' : Db) (seconds : Z) :
  let id := JS.parseInt10 (params_id req) in
  let w1 := snd (serve (put_product req) w) in
  let w2 := snd (serve (get_product req) w1) in
  pending w = [] → redisReady w = true → redis_link w = true →
  valid_update req →
  pg_update (writePool w) (body_field req "name") (body_field req "price_cents") id
  = (Some (row :: rest), db') →
  pg_select_by_id (readPool w) id = Some (old :: rest') →
  redis_accepts_ttl (CACHE_TTL_SECONDS w) = Some seconds →
  fst (serve (put_product req) w) = Sent (updated row) ∧
  fst (serve (get_product req) w1) = Sent (miss old) ∧
  redis_data w2 !! product_key id = Some (JSON_stringify old, seconds) ∧
  fst (serve (get_product req) w2) = Sent (hit (JS.FromText (JSON_stringify old))).
Proof.
  intros id w1 w2 Hidle Hready Hlink Hvalid Hupd Hsel Httl.
  pose proof (put_product_idle w req row rest db' Hidle Hready Hlink Hvalid Hupd)
    as Hput.
  destruct Hvalid as (Hfin & _).
  assert (Hget : ∃ wg, serve (get_product req) w1 = (Sent (miss old), wg) ∧
                   pending wg = [] ∧ redisReady wg = true ∧
                   redis_link wg = true ∧
                   redis_data wg !! product_key id
                   = Some (JSON_stringify old, seconds)).
  { subst w1. rewrite Hput. cbn [snd]. eexists. split.
    - apply (get_product_idle _ req old rest' seconds); step_world;
        try assumption.
      apply lookup_delete_eq.
    - step_world. split; [| split; [| split]]; try assumption.
      apply lookup_insert_eq. }
  destruct Hget as (wg & Hget & Hidle2 & Hready2 & Hlink2 & Hdata2).
  subst w2. rewrite Hget, Hput. cbn [fst snd].
  split; [reflexivity |]. split; [reflexivity |]. split; [exact Hdata2 |].
  rewrite (get_product_hit wg req (JSON_stringify old) seconds
             (JS.FromText (JSON_stringify old)));
    [reflexivity | ..]; rewrite ?suspend_idle by assumption; try assumption.
  apply JSON_parse_stringify.
Qed.

Lemma stale_read_after_update_witness :
  let req := mkRequest "7" (Some widget2) in
  let row := mkRow 7 "Widget2" 1099 "2024-01-02T00:00:00.000Z" in
  let w1 := snd (serve (put_product req) live_world) in
  fst (serve (put_product req) live_world) = Sent (updated row) ∧
  fst (serve (get_product req) w1) = Sent (miss widget).
Proof.
  intros req row w1.
  assert (Hvalid : valid_update req)
    by (split; [| split]; vm_compute; reflexivity).
  pose (db' := mkDb true [row] "2024-01-02T00:00:00.000Z").
  assert (Hupd : pg_update (writePool live_world) (body_field req "name")
                   (body_field req "price_cents") (JS.parseInt10 (params_id req))
                 = (Some [row], db')) by (vm_compute; reflexivity).
  pose proof (stale_read_after_update live_world req row widget [] [] db' 60
                eq_refl eq_refl eq_refl Hvalid Hupd eq_refl eq_refl)
    as (Hput & Hget & _).
  split; [exact Hput | exact Hget].
Defined.

(** Read after write, replica caught up: after a successful PUT, once
    the replica has replayed the primary, a GET of the same id is a MISS
    answered with the row the PUT returned. *)
Theorem fresh_read_after_replication (w : World) (req : Request) (row : Row)
    (rest : list Row) (db' : Db) (seconds : Z) :
  let id := JS.parseInt10 (params_id req) in
  let w1 := apply_event (snd (serve (put_product req) w)) Replicate in
  pending w = [] → redisReady w = true → redis_link w = true →
  valid_update req →
  pg_update (writePool w) (body_field req "name") (body_field req "price_cents") id
  = (Some (row :: rest), db') →
  db_up (readPool w) = true →
  redis_accepts_ttl (CACHE_TTL_SECONDS w) = Some seconds →
  fst (serve (put_product req) w) = Sent (updated row) ∧
  fst (serve (get_product req) w1) = Sent (miss row).
Proof.
  intros id w1 Hidle Hready Hlink Hvalid Hupd Hup Httl.
  pose proof (put_product_idle w req row rest db' Hidle Hready Hlink Hvalid Hupd)
    as Hput.
  destruct Hvalid as (Hfin & _).
  subst w1. rewrite Hput. cbn [fst snd]. split; [reflexivity |].
  erewrite (get_product_idle _ req row rest seconds); [reflexivity | ..];
    cbn [apply_event]; step_world; try assumption.
  - apply lookup_delete_eq.
  - cbn [set_readPool readPool writePool]. rewrite Hup.
    apply (pg_select_after_update _ _ _ _ _ _ _ Hupd).
Qed.

Lemma fresh_read_after_replication_witness :
  let req := mkRequest "7" (Some widget2) in
  let row := mkRow 7 "Widget2" 1099 "2024-01-02T00:00:00.000Z" in
  let w1 := apply_event (snd (serve (put_product req) live_world)) Replicate in
  fst (serve (get_product req) w1) = Sent (miss row).
Proof.
  intros req row w1.
  assert (Hvalid : valid_update req)
    by (split; [| split]; vm_compute; reflexivity).
  pose (db' := mkDb true [row] "2024-01-02T00:00:00.000Z").
  assert (Hupd : pg_update (writePool live_world) (body_field req "name")
                   (body_field req "price_cents") (JS.parseInt10 (params_id req))
                 = (Some [row], db')) by (vm_compute; reflexivity).
  exact (proj2 (fresh_read_after_replication live_world req row [] db' 60
                  eq_refl eq_refl eq_refl Hvalid Hupd eq_refl eq_refl)).
Defined.

(** ** The events of the client *)

Lemma last_emit_acc (batch : list Event) (flag : option bool) :
  last_emit batch flag = from_option Some flag (last_emit batch None).
Proof.
  revert flag. induction batch as [| e batch IH]; intros flag; [reflexivity |].
  destruct e; cbn [last_emit]; rewrite ?(IH (Some _)); try apply IH;
    destruct (last_emit batch None); reflexivity.
Qed.

(** The flag follows the last event of the client: after any events it
    is true when the last of the "ready", "end" and "error" among them is
    a "ready", false when it is an "end" or an "error", and what it was
    when there is none; losing the connection, an expiry or a
    replication do not change it. *)
Theorem flag_follows_last_event (w : World) (batch : list Event) :
  redisReady (foldl apply_event w batch)
  = default (redisReady w) (last_emit batch None).
Proof.
  revert w. induction batch as [| e batch IH]; intros w; [reflexivity |].
  cbn [foldl]. rewrite IH.
  destruct e; cbn [last_emit]; rewrite ?last_emit_acc with (flag := Some _);
    destruct (last_emit batch None); reflexivity.
Qed.

(** ** GET /products *)

Lemma suspend_readPool_up (w : World) :
  db_up (readPool (suspend w)) = db_up (readPool w).
Proof.
  apply (suspend_inv (fun w => db_up (readPool w))); [intros ? [] | intros];
    reflexivity.
Qed.

#[local] Instance id_le_total : Total id_le.
Proof. intros a b. unfold id_le. lia. Qed.

#[local] Instance id_le_trans : Transitive id_le.
Proof. intros a b c. unfold id_le. lia. Qed.

Ltac run_open :=
  cbv beta iota zeta delta
    [serve get_products post_product queryRead_all writePool_insert lift
     try_catch st_bind st_ret throw get_state modify res_status res_setHeader
     res_json fresh_response res world status headers body].

(** The list does not depend on the cache: whatever the flag and the
    state of Redis, with the replica up GET /products answers 200 with
    all the rows of the replica, each once, in ascending order of id,
    and makes no call to Redis; with the replica down the handler's
    promise rejects. *)
Theorem list_ignores_cache (w : World) :
  (db_up (readPool w) = true →
     ∃ rows, get_products w = (SentRows 200 rows, suspend w) ∧
             StronglySorted id_le rows ∧
             rows ≡ₚ db_rows (readPool (suspend w))) ∧
  (db_up (readPool w) = false →
     get_products w = (ListRejected PgError, suspend w)).
Proof.
  split; intros Hup; run_open; unfold pg_select_all;
    rewrite suspend_readPool_up, Hup; [| reflexivity].
  eexists. split; [reflexivity |]. split.
  - apply StronglySorted_merge_sort; apply _.
  - apply merge_sort_Permutation.
Qed.

Lemma list_ignores_cache_witness :
  get_products never_ready_world = (SentRows 200 [widget], never_ready_world) ∧
  get_products replica_down_world = (ListRejected PgError, replica_down_world).
Proof.
  pose proof (list_ignores_cache never_ready_world) as [Hup _].
  pose proof (list_ignores_cache replica_down_world) as [_ Hdown].
  split; [| exact (Hdown eq_refl)].
  destruct (Hup eq_refl) as (rows & -> & _ & Hperm).
  apply Permutation_singleton_r in Hperm as ->. reflexivity.
Defined.

(** ** POST /products *)

(** A body without a truthy name or an integer price is answered 400
    before any call to the primary, whatever the flag. *)
Theorem invalid_create_untouched (w : World) (req : Request) (assigned : Z) :
  invalid_body req →
  serve (post_product assigned req) w = (Sent bad_body, w).
Proof.
  unfold invalid_body. intros [Hname | Hprice]; run_open;
    rewrite ?Hname, ?Hprice; cbn [negb orb]; rewrite ?orb_true_r; reflexivity.
Qed.

Lemma invalid_create_untouched_witness :
  serve (post_product 8 (mkRequest "" None)) down_world = (Sent bad_body, down_world).
Proof.
  exact (invalid_create_untouched down_world (mkRequest "" None) 8
           (or_introl eq_refl)).
Defined.

(** A valid POST on a primary that is up and reads the price as an
    integer *)
Lemma post_product_ok (w : World) (req : Request) (assigned : Z)
    (text : string) (p : Z) :
  let row := mkRow assigned text p (db_now (writePool w)) in
  JS.truthy (body_field req "name") = true →
  JS.isInteger (body_field req "price_cents") = true →
  pg_string (body_field req "name") = Some text →
  pg_int (body_field req "price_cents") = Some p →
  db_up (writePool w) = true →
  serve (post_product assigned req) w
  = (Sent (created row),
     set_writePool (mkDb true (db_rows (writePool w) ++ [row])
                         (db_now (writePool w))) (suspend w)).
Proof.
  intros row Hname Hprice Htext Hp Hup. subst row.
  run_open. rewrite Hname, Hprice. cbn [negb orb].
  run_open. unfold pg_insert. rewrite suspend_writePool, Hup, Htext, Hp.
  run_open. reflexivity.
Qed.

(** Creation does not depend on the cache: whatever the flag and the
    state of Redis, a valid body whose name the primary takes as a text
    and whose price it reads as an integer, on a primary that is up, is
    answered 201 with the new row, which carries the name and the price
    of the body and is added to the primary; no call to Redis is made.
    When the primary refuses the price, the handler's promise rejects
    and the primary is as it was. *)
Theorem create_ignores_cache (w : World) (req : Request) (assigned : Z) :
  JS.truthy (body_field req "name") = true →
  JS.isInteger (body_field req "price_cents") = true →
  db_up (writePool w) = true →
  (pg_accepts_text (body_field req "name") →
   pg_accepts (body_field req "price_cents") →
   ∃ row w',
     serve (post_product assigned req) w = (Sent (created row), w') ∧
     row_id row = assigned ∧
     pg_text (body_field req "name") = Some (row_name row) ∧
     body_field req "price_cents" = JS.VNumber (JS.Int (row_price_cents row)) ∧
     row_updated_at row = db_now (writePool w) ∧
     db_rows (writePool w') = (db_rows (writePool w) ++ [row])%list ∧
     redis_data w' = redis_data (suspend w) ∧
     trace w' = trace w) ∧
  (¬ pg_accepts (body_field req "price_cents") →
   serve (post_product assigned req) w = (Rejected PgError, suspend w) ∧
   writePool (suspend w) = writePool w).
Proof.
  intros Hname Hprice Hup. split.
  - intros [text Htext] [p Hp].
    exists (mkRow assigned text p (db_now (writePool w))). eexists.
    split; [exact (post_product_ok w req assigned text p Hname Hprice Htext Hp Hup) |].
    split; [reflexivity |]. split; [exact (pg_string_text _ _ Htext) |]. split.
    { destruct (isInteger_Int _ Hprice) as [p0 Hp0]. rewrite Hp0 in Hp |- *.
      now rewrite (pg_int_read _ _ Hp). }
    split; [reflexivity |]. step_world. cbn [db_rows].
    split; [reflexivity | split; [reflexivity | apply suspend_trace]].
  - intros Hrefused. split; [| apply suspend_writePool].
    assert (Hp : pg_int (body_field req "price_cents") = None).
    { destruct (pg_int _) as [p |] eqn:Hp; [| reflexivity].
      exfalso. apply Hrefused. now exists p. }
    run_open. rewrite Hname, Hprice. cbn [negb orb]. run_open.
    unfold pg_insert. rewrite suspend_writePool, Hup, Hp. run_open.
    destruct (pg_string _); reflexivity.
Qed.

Lemma create_ignores_cache_witness :
  let row := mkRow 8 "Gadget" 250 "2024-01-02T00:00:00.000Z" in
  fst (serve (post_product 8 (mkRequest "" (Some gadget))) never_ready_world)
  = Sent (created row) ∧
  serve (post_product 8 (mkRequest "" (Some costly))) never_ready_world
  = (Rejected PgError, never_ready_world).
Proof.
  intros row.
  pose proof (create_ignores_cache never_ready_world (mkRequest "" (Some gadget)) 8
                eq_refl eq_refl eq_refl) as [Hok _].
  pose proof (create_ignores_cache never_ready_world (mkRequest "" (Some costly)) 8
                eq_refl eq_refl eq_refl) as [_ Hrefused].
  split.
  - destruct (Hok (ex_intro _ "Gadget" eq_refl) (ex_intro _ 250 eq_refl))
      as (r & w' & Hserve & Hid & Hname & Hprice & Htime & _).
    rewrite Hserve. cbn [fst]. destruct r as [i n p t].
    cbn [row_id row_name row_price_cents row_updated_at] in *.
    vm_compute in Hname, Hprice, Htime.
    injection Hname as <-. injection Hprice as <-. subst i t. reflexivity.
  - apply Hrefused. intros [p Hp]. vm_compute in Hp. discriminate Hp.
Defined.

(** ** A creation followed by an update *)

(** An UPDATE on an id the table has returns a row of that id. *)
Lemma pg_update_present (db : Db) (name price : JS.value) (id : JS.number)
    (text : string) (p z : Z) (r0 : Row) :
  db_up db = true → pg_string name = Some text →
  pg_int price = Some p → pg_int (JS.VNumber id) = Some z →
  r0 ∈ db_rows db → row_id r0 = z →
  ∃ row rest db',
    pg_update db name price id = (Some (row :: rest), db') ∧ row_id row = z.
Proof.
  intros Hup Htext Hprice Hid Hin Hrow. unfold pg_update.
  rewrite Hup, Htext, Hprice, Hid. cbv zeta.
  match goal with
  | |- context [filter ?P ?l] => destruct (filter P l) as [| row rest] eqn:Hfilter
  end.
  - exfalso.
    assert (Hin' : set_attrs text p (db_now db) r0 ∈ @nil Row);
      [| now apply elem_of_nil in Hin'].
    rewrite <- Hfilter. apply list_elem_of_filter. split; [exact Hrow |].
    apply list_elem_of_fmap. exists r0. split; [| exact Hin].
    destruct (decide _); [reflexivity | contradiction].
  - exists row, rest. eexists. split; [reflexivity |].
    assert (Hin' : row ∈ row :: rest) by left.
    rewrite <- Hfilter in Hin'. now apply list_elem_of_filter in Hin'.
Qed.

(** A product just created can be updated: with the cache live and
    nothing scheduled, after a POST answered with a row of id [assigned]
    (a value of the key's type, from -2^31 up to 2^31 - 1), a valid PUT
    on the id printed in decimal, with a name the primary takes as a
    text and a price it reads as an integer, is answered 200, not 404,
    with a row of that id that carries the new name. *)
Theorem created_is_updatable (w : World) (req req2 : Request) (assigned : Z) :
  let w1 := snd (serve (post_product assigned req) w) in
  pending w = [] → redisReady w = true → redis_link w = true →
  db_up (writePool w) = true →
  JS.truthy (body_field req "name") = true →
  JS.isInteger (body_field req "price_cents") = true →
  pg_accepts_text (body_field req "name") →
  pg_accepts (body_field req "price_cents") →
  - 2 ^ 31 <= assigned < 2 ^ 31 →
  params_id req2 = JS.Number_toString (JS.Int assigned) →
  JS.truthy (body_field req2 "name") = true →
  JS.isInteger (body_field req2 "price_cents") = true →
  pg_accepts_text (body_field req2 "name") →
  pg_accepts (body_field req2 "price_cents") →
  ∃ row, fst (serve (put_product req2) w1) = Sent (updated row) ∧
         row_id row = assigned ∧
         pg_text (body_field req2 "name") = Some (row_name row).
Proof.
  intros w1 Hidle Hready Hlink Hup Hname Hprice [text Htext] [p Hp] Hrange Hid
    Hname2 Hprice2 [text2 Htext2] [p2 Hp2].
  assert (Hparse : JS.parseInt10 (params_id req2) = JS.Int assigned).
  { rewrite Hid. apply parseInt10_toString.
    change (2 ^ 31) with 2147483648 in Hrange.
    change (2 ^ 53) with 9007199254740992. lia. }
  pose proof (pg_int_in_range assigned Hrange) as Hkey.
  subst w1.
  rewrite (post_product_ok w req assigned text p Hname Hprice Htext Hp Hup).
  cbn [snd]. rewrite (suspend_idle w Hidle).
  set (new := mkRow assigned text p (db_now (writePool w))).
  set (w1 := set_writePool _ w).
  destruct (pg_update_present (writePool w1) (body_field req2 "name")
              (body_field req2 "price_cents") (JS.parseInt10 (params_id req2))
              text2 p2 assigned new)
    as (row & rest & db' & Hupd & Hrow); try (assumption || reflexivity).
  { now rewrite Hparse. }
  { subst w1. step_world. cbn [db_rows]. apply elem_of_app. right. left. }
  exists row. split; [| split; [exact Hrow |]].
  - rewrite (put_product_idle w1 req2 row rest db'); try assumption.
    + reflexivity.
    + split; [| split]; try assumption. now rewrite Hparse.
  - destruct (pg_update_ok _ _ _ _ _ _ Hprice2 Hupd) as [Hin Hattrs].
    apply Hattrs; [apply Hin; left | now rewrite Hparse, Hrow].
Qed.

Lemma created_is_updatable_witness :
  let w1 := snd (serve (post_product 8 (mkRequest "" (Some gadget))) live_world) in
  ∃ row, fst (serve (put_product (mkRequest "8" (Some widget2))) w1)
         = Sent (updated row) ∧
         row_id row = 8 ∧ row_name row = "Widget2".
Proof.
  intros w1.
  assert (Hrange : - 2 ^ 31 <= 8 < 2 ^ 31) by (split; [discriminate | reflexivity]).
  destruct (created_is_updatable live_world (mkRequest "" (Some gadget))
              (mkRequest "8" (Some widget2)) 8
              eq_refl eq_refl eq_refl eq_refl eq_refl eq_refl
              (ex_intro _ "Gadget" eq_refl) (ex_intro _ 250 eq_refl) Hrange
              eq_refl eq_refl eq_refl
              (ex_intro _ "Widget2" eq_refl) (ex_intro _ 1099 eq_refl))
    as (row & Hserve & Hid & Hname).
  exists row. split; [exact Hserve | split; [exact Hid |]].
  vm_compute in Hname. now injection Hname.
Defined.

(** ** Keys *)

Lemma product_key_inj_witness :
  product_key (JS.Int 7) = "product:7" ∧ 7 = 7.
Proof.
  split; [reflexivity |].
  exact (product_key_inj 7 7 (conj eq_refl eq_refl) (conj eq_refl eq_refl) eq_refl).
Defined.
